(** * Apigee health-check target generator: model of [generate_targets.py]

    The script reads a Service's ClusterIP and the ApigeeRoute custom
    resources of a namespace, folds the resources into a map from hostname
    to path prefixes ([parse_apigee_routes]), and turns that map into a
    Prometheus file-based service-discovery list
    ([generate_prometheus_targets]).

    The resources are whatever [json] decoding produced, so the functions
    below work on untyped JSON values and fail the way the Python code
    fails: calling [.get] or [.startswith] on a value that has no such
    method is an [AttributeError], iterating a value that is not iterable
    or using an unhashable value as a dict key is a [TypeError].

    The program runs against an environment that answers for the
    libraries it calls: what [parser.parse_args()] does with the command
    line, what the Kubernetes client replies, and whether the output file
    can be opened for writing.

    Domain of the model: JSON numbers are integers and a character of a
    string is one [ascii] (code points below 256). *)

From Stdlib Require Import List String Ascii ZArith Bool Lia.
From Stdlib Require DecimalString.
Import ListNotations.
Local Open Scope string_scope.
Local Open Scope list_scope.

(** ** Python values *)

Module Py.

(** A decoded JSON document.  [JObj] lists the items of a [dict] in
    insertion order; its keys are pairwise distinct. *)
#[warnings="-register-all"]
Inductive json : Type :=
| JNull : json
| JBool : bool -> json
| JInt : Z -> json
| JStr : string -> json
| JArr : list json -> json
| JObj : list (string * json) -> json.

Inductive exn : Type := AttributeError | TypeError | OSError.

Inductive result (A : Type) : Type :=
| Ok : A -> result A
| Raise : exn -> result A.
Arguments Ok {A} _.
Arguments Raise {A} _.

Definition bind {A B : Type} (c : result A) (k : A -> result B) : result B :=
  match c with
  | Ok a => k a
  | Raise e => Raise e
  end.

(** [for x in l: s = body(s, x)], stopping at the first exception. *)
Fixpoint foldM {A S : Type} (body : S -> A -> result S) (l : list A) (s : S)
  : result S :=
  match l with
  | [] => Ok s
  | x :: t => bind (body s x) (foldM body t)
  end.

(** Truth value of an object: [None], [False], [0], the empty string, list
    and dict are false. *)
Definition truthy (v : json) : bool :=
  match v with
  | JNull => false
  | JBool b => b
  | JInt n => negb (n =? 0)%Z
  | JStr s => negb (s =? "")
  | JArr l => match l with [] => false | _ :: _ => true end
  | JObj kv => match kv with [] => false | _ :: _ => true end
  end.

Fixpoint dict_lookup (k : string) (kv : list (string * json)) : option json :=
  match kv with
  | [] => None
  | (k', v) :: t => if k' =? k then Some v else dict_lookup k t
  end.

(** [d.get(k, default)]; only a dict has the method. *)
Definition py_get (d : json) (k : string) (default : json) : result json :=
  match d with
  | JObj kv =>
      Ok (match dict_lookup k kv with Some v => v | None => default end)
  | _ => Raise AttributeError
  end.

(** The elements a [for] loop over [v] visits: the elements of a list, the
    characters of a string, the keys of a dict. *)
Definition py_iter (v : json) : result (list json) :=
  match v with
  | JArr l => Ok l
  | JStr s => Ok (map (fun c => JStr (String c "")) (list_ascii_of_string s))
  | JObj kv => Ok (map (fun kv => JStr (fst kv)) kv)
  | _ => Raise TypeError
  end.

(** [s.startswith(p)] *)
Definition startswith (s p : string) : bool := String.prefix p s.

Definition hashable (v : json) : bool :=
  match v with
  | JArr _ | JObj _ => false
  | _ => true
  end.

(** [a == b] on hashable values; [True == 1] and [False == 0]. *)
Definition py_eq (a b : json) : bool :=
  match a, b with
  | JNull, JNull => true
  | JBool x, JBool y => Bool.eqb x y
  | JBool x, JInt n => (Z.b2z x =? n)%Z
  | JInt n, JBool y => (n =? Z.b2z y)%Z
  | JInt n, JInt k => (n =? k)%Z
  | JStr s, JStr t => (s =? t)
  | _, _ => false
  end.

End Py.
Export Py.

Declare Scope result_scope.
Delimit Scope result_scope with result.
Notation "x <- c ;; k" := (bind c (fun x => k))
  (at level 61, c at next level, right associativity) : result_scope.
Local Open Scope result_scope.

(** ** The route map *)

(** The dict [hostname_map]: its items in insertion order.  A key is any
    hashable value; the value is the list of path prefixes. *)
Definition route_map : Type := list (json * list string).

Definition has_key (hostname : json) (hostname_map : route_map) : bool :=
  existsb (fun e => py_eq (fst e) hostname) hostname_map.

(** [hostname_map.setdefault(hostname, [])] *)
Definition setdefault (hostname_map : route_map) (hostname : json) : route_map :=
  if has_key hostname hostname_map then hostname_map
  else hostname_map ++ [(hostname, [])].

(** [route in l] *)
Definition route_in (route : string) (l : list string) : bool :=
  existsb (String.eqb route) l.

(** [[
      if route not in hostname_map[hostname]:
          hostname_map[hostname].append(route)
    ]]
    The key is present when this runs: [setdefault] comes first. *)
Fixpoint add_route (hostname : json) (hostname_map : route_map) (route : string)
  : route_map :=
  match hostname_map with
  | [] => []
  | (k, paths) :: t =>
      if py_eq k hostname
      then (k, if route_in route paths then paths else paths ++ [route]) :: t
      else (k, paths) :: add_route hostname t route
  end.

(** ** parse_apigee_routes *)

Definition RESERVED_PREFIX : string := "/__apigee__/".

(** [uri.get('prefixPattern') or uri.get('prefix')] *)
Definition accepted_prefix (uri : json) : result json :=
  a <- py_get uri "prefixPattern" JNull ;;
  if truthy a then Ok a else py_get uri "prefix" JNull.

(** Body of the loop over matches (lines 52-55). *)
Definition match_step (routes : list string) (match_ : json)
  : result (list string) :=
  uri <- py_get match_ "uri" (JObj []) ;;
  prefix <- accepted_prefix uri ;;
  if truthy prefix then
    match prefix with
    | JStr s =>
        if negb (startswith s RESERVED_PREFIX) then Ok (routes ++ [s])
        else Ok routes
    | _ => Raise AttributeError
    end
  else Ok routes.

(** Body of the loop over rules (lines 51-55). *)
Definition rule_step (routes : list string) (rule : json)
  : result (list string) :=
  matches_ <- py_get rule "matches" (JArr []) ;;
  ms <- py_iter matches_ ;;
  foldM match_step ms routes.

(** Lines 49-55: the routes of one resource. *)
Definition collect_routes (rules : json) : result (list string) :=
  rs <- py_iter rules ;;
  foldM rule_step rs [].

(** Lines 45-47: the two fields read from a resource. *)
Definition item_fields (item : json) : result (json * json) :=
  spec <- py_get item "spec" (JObj []) ;;
  hostnames <- py_get spec "hostnames" JNull ;;
  rules_ <- py_get spec "rules" (JObj []) ;;
  rules <- py_get rules_ "http" (JArr []) ;;
  Ok (hostnames, rules).

(** Body of the loop over hostnames (lines 58-61). *)
Definition hostname_step (routes : list string) (hostname_map : route_map)
  (hostname : json) : result route_map :=
  if hashable hostname
  then Ok (fold_left (add_route hostname) routes (setdefault hostname_map hostname))
  else Raise TypeError.

(** Body of the loop over resources (lines 45-61). *)
Definition item_step (hostname_map : route_map) (item : json)
  : result route_map :=
  fields <- item_fields item ;;
  let (hostnames, rules) := fields in
  if negb (truthy hostnames) || negb (truthy rules) then Ok hostname_map
  else
    routes <- collect_routes rules ;;
    match routes with
    | [] => Ok hostname_map
    | _ :: _ =>
        hs <- py_iter hostnames ;;
        foldM (hostname_step routes) hs hostname_map
    end.

Definition parse_apigee_routes (items : json) : result route_map :=
  if negb (truthy items) then Ok []
  else
    l <- py_iter items ;;
    foldM item_step l [].

(** ** generate_prometheus_targets *)

Definition probe_url (service_ip route : string) : string :=
  "https://" ++ service_ip ++ "/healthz" ++ route.

(** The dict literal of lines 72-79. *)
Definition target (service_ip : string) (hostname : json) (route : string)
  : json :=
  JObj [ ("targets", JArr [JStr (probe_url service_ip route)]);
         ("labels", JObj [ ("apigee_hostname", hostname);
                           ("apigee_basepath", JStr route);
                           ("job", JStr "apigee-health") ]) ].

Definition generate_prometheus_targets (route_map_ : route_map)
  (service_ip : string) : list json :=
  fold_left
    (fun targets (e : json * list string) =>
       let (hostname, routes) := e in
       fold_left (fun targets route => targets ++ [target service_ip hostname route])
                 routes targets)
    route_map_ [].

(** ** json.dump *)

Module Json.
Local Open Scope string_scope.

Definition hex_digit (n : nat) : string :=
  String.substring n 1 "0123456789abcdef".

(** One character inside a string literal, with [ensure_ascii] on:
    the double quote, the backslash and everything outside the printable
    ASCII range (space to tilde) are escaped. *)
Definition escape_char (c : ascii) : string :=
  let n := nat_of_ascii c in
  if Nat.eqb n 92 then String c (String c "")
  else if Nat.eqb n 34 then String (ascii_of_nat 92) (String c "")
  else if Nat.eqb n 8 then String (ascii_of_nat 92) "b"
  else if Nat.eqb n 12 then String (ascii_of_nat 92) "f"
  else if Nat.eqb n 10 then String (ascii_of_nat 92) "n"
  else if Nat.eqb n 13 then String (ascii_of_nat 92) "r"
  else if Nat.eqb n 9 then String (ascii_of_nat 92) "t"
  else if Nat.leb 32 n && Nat.leb n 126 then String c ""
  else String (ascii_of_nat 92)
         ("u00" ++ hex_digit (Nat.div n 16) ++ hex_digit (Nat.modulo n 16)).

Definition quote (s : string) : string :=
  let dq := String (ascii_of_nat 34) "" in
  dq ++ String.concat "" (map escape_char (list_ascii_of_string s)) ++ dq.

Definition newline : string := String (ascii_of_nat 10) "".

Fixpoint spaces (n : nat) : string :=
  match n with
  | O => ""
  | S k => " " ++ spaces k
  end.

(** Line break and indentation before an item at nesting depth [level]:
    nothing when [indent] is [None]. *)
Definition newline_indent (indent : option nat) (level : nat) : string :=
  match indent with
  | None => ""
  | Some w => newline ++ spaces (w * level)
  end.

Definition item_separator (indent : option nat) (level : nat) : string :=
  match indent with
  | None => ", "
  | Some _ => "," ++ newline_indent indent level
  end.

Fixpoint encode (indent : option nat) (level : nat) (v : json) {struct v}
  : string :=
  match v with
  | JNull => "null"
  | JBool true => "true"
  | JBool false => "false"
  | JInt n => DecimalString.NilZero.string_of_int (Z.to_int n)
  | JStr s => quote s
  | JArr [] => "[]"
  | JArr l =>
      "[" ++ newline_indent indent (S level)
          ++ String.concat (item_separator indent (S level))
               (map (encode indent (S level)) l)
          ++ newline_indent indent level ++ "]"
  | JObj [] => "{}"
  | JObj kv =>
      "{" ++ newline_indent indent (S level)
          ++ String.concat (item_separator indent (S level))
               (map (fun e : string * json =>
                       let (k, x) := e in
                       quote k ++ ": " ++ encode indent (S level) x) kv)
          ++ newline_indent indent level ++ "}"
  end.

(** The text [json.dump(v, f, indent=indent)] writes. *)
Definition dumps (indent : option nat) (v : json) : string :=
  encode indent 0 v.

End Json.

(** ** The cluster and the program *)

Record V1ServiceSpec : Type := { cluster_ip : option string }.
Record V1Service : Type := { spec : option V1ServiceSpec }.

Inductive api_reply (A : Type) : Type :=
| Reply : A -> api_reply A
| ApiException : Z -> api_reply A.
Arguments Reply {A} _.
Arguments ApiException {A} _.

(** What the Kubernetes client answers during one run. *)
Record cluster : Type := {
  incluster_config : bool;
  read_namespaced_service : string -> string -> api_reply V1Service;
  list_namespaced_custom_object :
    string -> string -> string -> string -> api_reply json
}.

(** [None] is the failure signal. *)
Definition get_k8s_service_ip (c : cluster) (namespace service_name : string)
  : result (option string) :=
  match read_namespaced_service c service_name namespace with
  | Reply service =>
      match spec service with
      | None => Raise AttributeError
      | Some service_spec =>
          match cluster_ip service_spec with
          | None => Ok None
          | Some ip =>
              if negb (truthy (JStr ip)) || (ip =? "None") then Ok None
              else Ok (Some ip)
          end
      end
  | ApiException _ => Ok None
  end.

Definition GROUP : string := "apigee.cloud.google.com".
Definition VERSION : string := "v1alpha2".
Definition PLURAL : string := "apigeeroutes".

(** [JNull] is the failure signal [None]. *)
Definition get_apigee_routes_from_cluster (c : cluster) (namespace : string)
  : result json :=
  if incluster_config c then
    match list_namespaced_custom_object c GROUP VERSION namespace PLURAL with
    | Reply api_response => py_get api_response "items" (JArr [])
    | ApiException _ => Ok JNull
    end
  else Ok JNull.

Record args : Type := {
  namespace : string;
  service_name : string;
  outfile : string
}.

(** What [parser.parse_args()] (line 101) does with the command line: it
    returns the namespace of the three options, or prints the help and
    ends the process with status 0 ([-h]), or reports a usage error, such
    as a missing [-s], and ends the process with status 2. *)
Inductive parsed_args : Type :=
| Parsed : args -> parsed_args
| Help : parsed_args
| UsageError : parsed_args.

(** One invocation of the script: the outcome of [parse_args] and, for
    each path, whether [open(path, 'w')] succeeds. *)
Record invocation : Type := {
  parse_args : parsed_args;
  writable : string -> bool
}.

(** What a run leaves behind: the exit status and the file written, as
    (path, contents). *)
Record outcome : Type := {
  exit_code : Z;
  written : option (string * string)
}.

Definition sys_exit (n : Z) : outcome :=
  {| exit_code := n; written := None |}.

(** An exception nobody catches ends the interpreter with status 1. *)
Definition uncaught (e : exn) : outcome := sys_exit 1.

(** [with open(path, 'w') as f: json.dump(value, f, indent=indent)] and the
    return that follows it; when the file cannot be opened the [OSError]
    is caught by nobody. *)
Definition dump_to (inv : invocation) (path : string) (indent : option nat)
  (value : json) : outcome :=
  if writable inv path
  then {| exit_code := 0; written := Some (path, Json.dumps indent value) |}
  else uncaught OSError.

Definition main (c : cluster) (inv : invocation) : outcome :=
  match parse_args inv with
  | Help => sys_exit 0
  | UsageError => sys_exit 2
  | Parsed a =>
      if negb (incluster_config c) then sys_exit 1
      else
        match get_k8s_service_ip c (namespace a) (service_name a) with
        | Raise e => uncaught e
        | Ok None => sys_exit 1
        | Ok (Some service_ip) =>
            if negb (truthy (JStr service_ip)) then sys_exit 1
            else
              match get_apigee_routes_from_cluster c (namespace a) with
              | Raise e => uncaught e
              | Ok JNull => sys_exit 1
              | Ok items =>
                  match parse_apigee_routes items with
                  | Raise e => uncaught e
                  | Ok [] => dump_to inv (outfile a) None (JArr [])
                  | Ok route_map_ =>
                      let prometheus_targets :=
                        generate_prometheus_targets route_map_ service_ip in
                      dump_to inv (outfile a) (Some 2) (JArr prometheus_targets)
                  end
              end
        end
  end.

(** ** What the specification says, in its own terms *)

(** The (hostname, path) pairs of a route map in iteration order: hostnames
    in map order, then paths in list order within each hostname. *)
Definition route_pairs (m : route_map) : list (json * string) :=
  flat_map (fun e => map (pair (fst e)) (snd e)) m.

(** First occurrence wins: keep the head and drop its later copies. *)
Fixpoint first_occurrences {A : Type} (eqb : A -> A -> bool) (l : list A)
  : list A :=
  match l with
  | [] => []
  | x :: t => x :: filter (fun y => negb (eqb x y)) (first_occurrences eqb t)
  end.

(** The paths a sequence of (hostname, path) pairs gives to [hostname]. *)
Definition paths_of (hostname : json) (pairs : list (json * string))
  : list string :=
  map snd (filter (fun e => py_eq (fst e) hostname) pairs).

(** A sequence of (hostname, path) pairs grouped by hostname: hostnames in
    order of first occurrence, each with its paths in order of first
    occurrence. *)
Definition group_first (pairs : list (json * string)) : route_map :=
  map (fun h => (h, first_occurrences String.eqb (paths_of h pairs)))
      (first_occurrences py_eq (map fst pairs)).

(** *** The input document, read without the parser *)

(** The value of field [k] of the object [o]; [default] when the field, or
    the object, is missing. *)
Definition field (o : json) (k : string) (default : json) : json :=
  match o with
  | JObj kv => match dict_lookup k kv with Some v => v | None => default end
  | _ => default
  end.

(** The members of a value in the order the document lists them: the
    elements of a list, the characters of a string, the keys of an object. *)
Definition members (v : json) : list json :=
  match v with
  | JArr l => l
  | JStr s => map (fun c => JStr (String c "")) (list_ascii_of_string s)
  | JObj kv => map (fun e => JStr (fst e)) kv
  | _ => []
  end.

(** The path value a match contributes, if any: its "prefixPattern" when
    that is set, else its "prefix", unless the value is empty or starts
    with the reserved prefix. *)
Definition match_paths (match_ : json) : list string :=
  let uri := field match_ "uri" (JObj []) in
  let pattern := field uri "prefixPattern" JNull in
  let accepted := if truthy pattern then pattern else field uri "prefix" JNull in
  match accepted with
  | JStr s => if (s =? "") || startswith s "/__apigee__/" then [] else [s]
  | _ => []
  end.

(** The path values of a rule: those of its matches, first match first. *)
Definition rule_paths (rule : json) : list string :=
  match field rule "matches" (JArr []) with
  | JArr matches_ => flat_map match_paths matches_
  | _ => []
  end.

(** The path values of a "rules.http" list: those of its rules, first rule
    first. *)
Definition resource_paths (rules : json) : list string :=
  match rules with
  | JArr rs => flat_map rule_paths rs
  | _ => []
  end.

(** The (hostname, path) pairs of a resource in document order: for each
    of its hostnames, first hostname first, each of its path values. *)
Definition document_pairs (item : json) : list (json * string) :=
  let spec := field item "spec" (JObj []) in
  let paths :=
    resource_paths (field (field spec "rules" (JObj [])) "http" (JArr [])) in
  flat_map (fun hostname => map (pair hostname) paths)
           (members (field spec "hostnames" JNull)).

(** ** The loop body without the map *)

(** What one pass of the loop of lines 44-61 adds, as (hostname, route)
    pairs in the order [add_route] receives them; an exception when the
    pass raises.  An auxiliary of the proofs, read off the code. *)
Definition item_pairs (item : json) : result (list (json * string)) :=
  fields <- item_fields item ;;
  let (hostnames, rules) := fields in
  if negb (truthy hostnames) || negb (truthy rules) then Ok []
  else
    routes <- collect_routes rules ;;
    match routes with
    | [] => Ok []
    | _ :: _ =>
        hs <- py_iter hostnames ;;
        if forallb hashable hs
        then Ok (flat_map (fun h => map (pair h) routes) hs)
        else Raise TypeError
    end.

(** The pairs of all passes, first resource first. *)
Definition encounters (items : list json) : result (list (json * string)) :=
  foldM (fun acc item => ps <- item_pairs item ;; Ok (acc ++ ps)) items [].

(** ** Resources of the expected shape *)

Definition get_field (kv : list (string * json)) (k : string) (default : json)
  : json :=
  match dict_lookup k kv with Some v => v | None => default end.

Definition optional_string (v : json) : bool :=
  match v with JNull | JStr _ => true | _ => false end.

Definition is_string (v : json) : bool :=
  match v with JStr _ => true | _ => false end.

(** An ApigeeRoute resource as the custom resource declares it: every field
    is optional; "hostnames" is a list of strings, "rules.http" a list of
    rules, "matches" a list of matches, a "uri" an object whose
    "prefixPattern" and "prefix" are strings. *)
Definition conforms_uri (uri : json) : bool :=
  match uri with
  | JObj kv =>
      optional_string (get_field kv "prefixPattern" JNull)
      && optional_string (get_field kv "prefix" JNull)
  | _ => false
  end.

Definition conforms_match (match_ : json) : bool :=
  match match_ with
  | JObj kv => conforms_uri (get_field kv "uri" (JObj []))
  | _ => false
  end.

Definition conforms_rule (rule : json) : bool :=
  match rule with
  | JObj kv =>
      match get_field kv "matches" (JArr []) with
      | JArr ms => forallb conforms_match ms
      | _ => false
      end
  | _ => false
  end.

Definition conforms_hostnames (hostnames : json) : bool :=
  match hostnames with
  | JNull => true
  | JArr hs => forallb is_string hs
  | _ => false
  end.

Definition conforms_http (rules : json) : bool :=
  match rules with
  | JArr rs => forallb conforms_rule rs
  | _ => false
  end.

Definition conforms_item (item : json) : bool :=
  match item with
  | JObj kv =>
      match get_field kv "spec" (JObj []) with
      | JObj sp =>
          conforms_hostnames (get_field sp "hostnames" JNull)
          && match get_field sp "rules" (JObj []) with
             | JObj ru => conforms_http (get_field ru "http" (JArr []))
             | _ => false
             end
      | _ => false
      end
  | _ => false
  end.

(** ** Sample inputs *)

Definition sample_item : json :=
  JObj [ ("spec",
          JObj [ ("hostnames", JArr [JStr "a.example.com"]);
                 ("rules",
                  JObj [ ("http",
                          JArr [ JObj [ ("matches",
                                         JArr [ JObj [ ("uri",
                                                        JObj [ ("prefix", JStr "/v1/orders") ]) ] ]) ] ]) ]) ]) ].

(** A resource with one rule: one match per entry of [prefixes], each with
    a one-field URI matcher. *)
Definition resource (hostnames : json) (prefixes : list (string * json)) : json :=
  JObj [ ("spec",
          JObj [ ("hostnames", hostnames);
                 ("rules",
                  JObj [ ("http",
                          JArr [ JObj [ ("matches",
                                         JArr (map (fun kv => JObj [("uri", JObj [kv])])
                                                   prefixes)) ] ]) ]) ]) ].

(** A resource that declares a hostname and no rules. *)
Definition sample_item_no_rules : json :=
  JObj [ ("spec", JObj [ ("hostnames", JArr [JStr "b.example.com"]) ]) ].

Definition sample_cluster (address : option string) (api_response : json)
  : cluster :=
  {| incluster_config := true;
     read_namespaced_service := fun _ _ =>
       Reply {| spec := Some {| cluster_ip := address |} |};
     list_namespaced_custom_object := fun _ _ _ _ => Reply api_response |}.

(** Another cluster: the Service has another name and lives in another
    namespace, and the list reply carries one more field. *)
Definition other_cluster (address : string) (items : json) : cluster :=
  {| incluster_config := true;
     read_namespaced_service := fun name ns =>
       if (name =? "ingress-prod")%string
       then Reply {| spec := Some {| cluster_ip := Some address |} |}
       else ApiException 404;
     list_namespaced_custom_object := fun _ _ _ _ =>
       Reply (JObj [("kind", JStr "ApigeeRouteList"); ("items", items)]) |}.

Definition other_args : args :=
  {| namespace := "apigee-prod";
     service_name := "ingress-prod";
     outfile := "/etc/prometheus/apigee.json" |}.

(** A cluster that refuses to list the custom resources. *)
Definition forbidden_cluster (address : string) : cluster :=
  {| incluster_config := true;
     read_namespaced_service := fun _ _ =>
       Reply {| spec := Some {| cluster_ip := Some address |} |};
     list_namespaced_custom_object := fun _ _ _ _ => ApiException 403 |}.

Definition sample_args : args :=
  {| namespace := "apigee";
     service_name := "apigee-ingressgateway-svc";
     outfile := "apigee_targets.json" |}.

(** The command line parsed to [a], every path writable. *)
Definition invoke (a : args) : invocation :=
  {| parse_args := Parsed a; writable := fun _ => true |}.

(** The command line parsed to [a], no path writable. *)
Definition invoke_read_only (a : args) : invocation :=
  {| parse_args := Parsed a; writable := fun _ => false |}.

(** No two entries of [l] are equal. *)
Definition distinct {A : Type} (eqb : A -> A -> bool) (l : list A) : Prop :=
  ForallOrdPairs (fun a b => eqb a b = false) l.

(** A path that does not start with the reserved prefix. *)
Definition unreserved (p : string) : Prop :=
  startswith p RESERVED_PREFIX = false.

Definition unreserved_map (m : route_map) : Prop :=
  Forall (fun e => Forall unreserved (snd e)) m.

(** [m'] has the entries of [m], in the same order and each with the paths
    of [m] as a prefix of its paths, followed by further entries. *)
Inductive extends : route_map -> route_map -> Prop :=
| extends_nil : forall m', extends [] m'
| extends_cons : forall k paths more t t',
    extends t t' -> extends ((k, paths) :: t) ((k, paths ++ more) :: t').

(** The resource passes the check of line 48, [hostname] is one of the
    values the loop of line 57 visits and [path] one of the routes lines
    49-55 collect. *)
Definition declares (item hostname : json) (path : string) : Prop :=
  exists hostnames rules routes hs,
    item_fields item = Ok (hostnames, rules)
    /\ truthy hostnames = true /\ truthy rules = true
    /\ collect_routes rules = Ok routes
    /\ py_iter hostnames = Ok hs
    /\ In hostname hs /\ In path routes.

(** * Properties *)

(** ** Concrete runs *)

Example reserved_match_gives_no_target :
  parse_apigee_routes
    (JArr [resource (JArr [JStr "a.example.com"])
             [("prefix", JStr "/__apigee__/internal")]])
  = Ok []
  /\ generate_prometheus_targets [] "10.0.0.5" = [].
Proof. split; reflexivity. Qed.

Example duplicates_collapse :
  parse_apigee_routes
    (JArr [ resource (JArr [JStr "a"; JStr "b"])
              [("prefix", JStr "/x"); ("prefixPattern", JStr "/y"); ("prefix", JStr "/x")];
            resource (JArr [JStr "b"; JStr "c"; JStr "b"])
              [("prefix", JStr "/y"); ("prefix", JStr "/z")] ])
  = Ok [ (JStr "a", ["/x"; "/y"]);
         (JStr "b", ["/x"; "/y"; "/z"]);
         (JStr "c", ["/y"; "/z"]) ].
Proof. reflexivity. Qed.

Example null_rules_raise :
  parse_apigee_routes (JArr [JObj [("spec", JObj [("rules", JNull)])]])
  = Raise AttributeError.
Proof. reflexivity. Qed.

Example string_hostnames_iterate_characters :
  parse_apigee_routes (JArr [resource (JStr "ab") [("prefix", JStr "/x")]])
  = Ok [(JStr "a", ["/x"]); (JStr "b", ["/x"])].
Proof. reflexivity. Qed.

Example list_hostname_raises :
  parse_apigee_routes
    (JArr [resource (JArr [JArr [JStr "a"]]) [("prefix", JStr "/x")]])
  = Raise TypeError.
Proof. reflexivity. Qed.

Example true_and_one_share_a_key :
  parse_apigee_routes
    (JArr [ resource (JArr [JBool true]) [("prefix", JStr "/x")];
            resource (JArr [JInt 1]) [("prefix", JStr "/y")] ])
  = Ok [(JBool true, ["/x"; "/y"])].
Proof. reflexivity. Qed.

Example help_exits_0_without_file :
  main (sample_cluster (Some "10.0.0.5") (JObj [("items", JArr [sample_item])]))
       {| parse_args := Help; writable := fun _ => true |}
  = {| exit_code := 0; written := None |}.
Proof. reflexivity. Qed.

Example usage_error_exits_2 :
  main (sample_cluster (Some "10.0.0.5") (JObj [("items", JArr [sample_item])]))
       {| parse_args := UsageError; writable := fun _ => true |}
  = {| exit_code := 2; written := None |}.
Proof. reflexivity. Qed.

Example unwritable_outfile_exits_1 :
  main (sample_cluster (Some "10.0.0.5") (JObj [("items", JArr [sample_item])]))
       (invoke_read_only sample_args)
  = {| exit_code := 1; written := None |}.
Proof. reflexivity. Qed.

Example dump_empty_list : Json.dumps None (JArr []) = "[]".
Proof. reflexivity. Qed.

Example dump_compact :
  Json.dumps None (JArr [JInt (-5); JBool true; JObj [("k", JNull)]])
  = String.concat (String (ascii_of_nat 34) "")
      ["[-5, true, {"; "k"; ": null}]"].
Proof. reflexivity. Qed.

Example dump_indented :
  Json.dumps (Some 2) (JArr [JInt 1; JArr [JInt 2]])
  = String.concat Json.newline ["["; "  1,"; "  ["; "    2"; "  ]"; "]"].
Proof. reflexivity. Qed.

(** ** Loops *)

Section Loops.
Context {A S : Type}.
Variable body : S -> A -> result S.

Lemma foldM_app (l1 l2 : list A) (s : S) :
  foldM body (l1 ++ l2) s = bind (foldM body l1 s) (foldM body l2).
Proof.
  revert s; induction l1 as [|x l1 IH]; intros s; simpl; [reflexivity|].
  destruct (body s x) as [s'|e]; simpl; [apply IH | reflexivity].
Qed.

(** A property every iteration keeps holds when the loop ends. *)
Lemma foldM_invariant (I : S -> Prop) :
  (forall s x s', I s -> body s x = Ok s' -> I s') ->
  forall l s s', I s -> foldM body l s = Ok s' -> I s'.
Proof.
  intros Hstep l; induction l as [|x l IH]; intros s s' Hs Hrun; simpl in Hrun.
  - now inversion Hrun; subst.
  - destruct (body s x) as [s1|e] eqn:Hb; simpl in Hrun; [|discriminate].
    eapply IH; [eapply Hstep; eassumption | exact Hrun].
Qed.

End Loops.

(** ** Strings *)

Lemma prefix_app (p s : string) : String.prefix p (p ++ s) = true.
Proof.
  induction p as [|c p IH]; simpl.
  - now destruct s.
  - destruct (ascii_dec c c) as [_|Hne]; [exact IH | now elim Hne].
Qed.

Lemma startswith_refl (s : string) : startswith s s = true.
Proof.
  unfold startswith. induction s as [|c s IH]; simpl; [reflexivity|].
  destruct (ascii_dec c c) as [_|Hne]; [exact IH | now elim Hne].
Qed.

Lemma string_app_assoc (a b c : string) :
  ((a ++ b) ++ c = a ++ (b ++ c))%string.
Proof. induction a as [|x a IH]; simpl; [reflexivity | now rewrite IH]. Qed.

(** ** The target generator *)

Lemma probe_url_prefix (service_ip route : string) :
  startswith (probe_url service_ip route)
             ("https://" ++ service_ip ++ "/healthz")%string = true.
Proof.
  unfold startswith, probe_url.
  rewrite <- (string_app_assoc service_ip "/healthz" route).
  rewrite <- (string_app_assoc "https://" (service_ip ++ "/healthz") route).
  apply prefix_app.
Qed.

Lemma generate_inner (service_ip : string) (hostname : json)
  (routes : list string) (acc : list json) :
  fold_left (fun targets route => targets ++ [target service_ip hostname route])
            routes acc
  = acc ++ map (target service_ip hostname) routes.
Proof.
  revert acc; induction routes as [|r routes IH]; intros acc; simpl.
  - now rewrite app_nil_r.
  - rewrite IH, <- app_assoc. reflexivity.
Qed.

Lemma generate_outer (service_ip : string) (m : route_map) (acc : list json) :
  fold_left
    (fun targets (e : json * list string) =>
       let (hostname, routes) := e in
       fold_left (fun targets route => targets ++ [target service_ip hostname route])
                 routes targets)
    m acc
  = acc ++ map (fun hp => target service_ip (fst hp) (snd hp)) (route_pairs m).
Proof.
  revert acc; induction m as [|[h routes] m IH]; intros acc; simpl.
  - now rewrite app_nil_r.
  - rewrite IH, generate_inner, <- app_assoc. f_equal.
    unfold route_pairs; simpl. rewrite map_app, map_map. reflexivity.
Qed.

Lemma generate_as_map (m : route_map) (service_ip : string) :
  generate_prometheus_targets m service_ip
  = map (fun hp => target service_ip (fst hp) (snd hp)) (route_pairs m).
Proof. unfold generate_prometheus_targets. now rewrite generate_outer. Qed.

Lemma length_route_pairs (m : route_map) :
  List.length (route_pairs m) = list_sum (map (fun e => List.length (snd e)) m).
Proof.
  unfold route_pairs. induction m as [|[h routes] m IH]; simpl; [reflexivity|].
  now rewrite List.length_app, List.length_map, IH.
Qed.

(** C1. For every resolved address and every route map, the generator
    returns exactly one target per (hostname, path) pair, in the map's
    iteration order (hostnames in map order, paths in list order within a
    hostname).  The target of the pair (h, p) is the object whose "targets"
    field is the one-element list holding "https://<address>/healthz<p>"
    and whose "labels" field maps "apigee_hostname" to h, "apigee_basepath"
    to p and "job" to "apigee-health". *)
Theorem generate_one_target_per_pair (m : route_map) (service_ip : string) :
  generate_prometheus_targets m service_ip
  = map (fun hp : json * string =>
           let (hostname, path) := hp in
           JObj [ ("targets",
                   JArr [JStr ("https://" ++ service_ip ++ "/healthz" ++ path)]);
                  ("labels",
                   JObj [ ("apigee_hostname", hostname);
                          ("apigee_basepath", JStr path);
                          ("job", JStr "apigee-health") ]) ])
        (route_pairs m)
  /\ List.length (generate_prometheus_targets m service_ip)
     = list_sum (map (fun e => List.length (snd e)) m).
Proof.
  split.
  - rewrite generate_as_map. apply map_ext. intros [h p]. reflexivity.
  - now rewrite generate_as_map, List.length_map, length_route_pairs.
Qed.

(** C2. The resource list holding the one resource with hostname
    "a.example.com" and one match of prefix "/v1/orders", with resolved
    address "10.0.0.5", parses and yields exactly one target, the one for
    "https://10.0.0.5/healthz/v1/orders". *)
Theorem example_single_route :
  let item :=
    JObj [ ("spec",
            JObj [ ("hostnames", JArr [JStr "a.example.com"]);
                   ("rules",
                    JObj [ ("http",
                            JArr [ JObj [ ("matches",
                                           JArr [ JObj [ ("uri",
                                                          JObj [ ("prefix", JStr "/v1/orders") ]) ] ]) ] ]) ]) ]) ] in
  exists m,
    parse_apigee_routes (JArr [item]) = Ok m
    /\ generate_prometheus_targets m "10.0.0.5"
       = [ JObj [ ("targets", JArr [JStr "https://10.0.0.5/healthz/v1/orders"]);
                  ("labels",
                   JObj [ ("apigee_hostname", JStr "a.example.com");
                          ("apigee_basepath", JStr "/v1/orders");
                          ("job", JStr "apigee-health") ]) ] ].
Proof.
  eexists. split; vm_compute; reflexivity.
Qed.

(** C3. For every resource list that parses and every resolved address,
    every target the generator produces has a one-element "targets" list
    whose URL starts with "https://<address>/healthz". *)
Theorem target_url_prefix (items : list json) (service_ip : string)
  (m : route_map) (t : json) :
  parse_apigee_routes (JArr items) = Ok m ->
  In t (generate_prometheus_targets m service_ip) ->
  exists url,
    py_get t "targets" JNull = Ok (JArr [JStr url])
    /\ startswith url ("https://" ++ service_ip ++ "/healthz") = true.
Proof.
  intros _ Hin. rewrite generate_as_map in Hin.
  apply in_map_iff in Hin. destruct Hin as [[h p] [<- _]].
  exists (probe_url service_ip p). split; [reflexivity|].
  apply probe_url_prefix.
Qed.

(** ** The reserved prefix *)

Lemma match_step_unreserved (routes routes' : list string) (match_ : json) :
  Forall unreserved routes ->
  match_step routes match_ = Ok routes' ->
  Forall unreserved routes'.
Proof.
  intros Hr H. unfold match_step, bind in H.
  destruct (py_get match_ "uri" (JObj [])) as [uri|]; [|discriminate].
  destruct (accepted_prefix uri) as [prefix|]; [|discriminate].
  destruct (truthy prefix); [|now inversion H; subst].
  destruct prefix as [| | |s| |]; try discriminate.
  destruct (startswith s RESERVED_PREFIX) eqn:Hs; simpl in H;
    inversion H; subst; [assumption|].
  apply Forall_app. split; [assumption|]. constructor; [exact Hs | constructor].
Qed.

Lemma rule_step_unreserved (routes routes' : list string) (rule : json) :
  Forall unreserved routes ->
  rule_step routes rule = Ok routes' ->
  Forall unreserved routes'.
Proof.
  intros Hr H. unfold rule_step, bind in H.
  destruct (py_get rule "matches" (JArr [])) as [ms|]; [|discriminate].
  destruct (py_iter ms) as [l|]; [|discriminate].
  revert H. apply foldM_invariant; [|assumption].
  intros s x s' Hs Hx. eapply match_step_unreserved; eassumption.
Qed.

Lemma collect_routes_unreserved (rules : json) (routes : list string) :
  collect_routes rules = Ok routes -> Forall unreserved routes.
Proof.
  unfold collect_routes, bind.
  destruct (py_iter rules) as [l|]; [|discriminate].
  apply foldM_invariant; [|constructor].
  intros s x s' Hs Hx. eapply rule_step_unreserved; eassumption.
Qed.

Lemma setdefault_unreserved (m : route_map) (h : json) :
  unreserved_map m -> unreserved_map (setdefault m h).
Proof.
  intros Hm. unfold setdefault. destruct (has_key h m); [assumption|].
  apply Forall_app. split; [assumption|]. repeat constructor.
Qed.

Lemma add_route_unreserved (h : json) (m : route_map) (r : string) :
  unreserved r -> unreserved_map m -> unreserved_map (add_route h m r).
Proof.
  intros Hr. induction m as [|[k paths] m IH]; intros Hm; simpl; [constructor|].
  inversion Hm as [|? ? Hk Ht]; subst; simpl in Hk.
  destruct (py_eq k h).
  - constructor; [|assumption]. simpl.
    destruct (route_in r paths); [assumption|].
    apply Forall_app. split; [assumption | now constructor].
  - constructor; [assumption | now apply IH].
Qed.

Lemma fold_add_route_unreserved (h : json) (routes : list string) (m : route_map) :
  Forall unreserved routes -> unreserved_map m ->
  unreserved_map (fold_left (add_route h) routes m).
Proof.
  revert m. induction routes as [|r routes IH]; intros m Hr Hm; simpl; [assumption|].
  inversion Hr; subst. apply IH; [assumption|]. now apply add_route_unreserved.
Qed.

Lemma item_step_unreserved (m m' : route_map) (item : json) :
  unreserved_map m -> item_step m item = Ok m' -> unreserved_map m'.
Proof.
  intros Hm H. unfold item_step, bind in H.
  destruct (item_fields item) as [[hostnames rules]|]; [|discriminate].
  destruct (negb (truthy hostnames) || negb (truthy rules));
    [now inversion H; subst|].
  destruct (collect_routes rules) as [routes|] eqn:Hc; [|discriminate].
  apply collect_routes_unreserved in Hc.
  destruct routes as [|r routes]; [now inversion H; subst|].
  destruct (py_iter hostnames) as [hs|]; [|discriminate].
  revert H. apply foldM_invariant; [|assumption].
  intros s h s' Hs Hh. unfold hostname_step in Hh.
  destruct (hashable h); [|discriminate]. inversion Hh; subst.
  apply (fold_add_route_unreserved h (r :: routes)); [assumption|].
  now apply setdefault_unreserved.
Qed.

Lemma parse_unreserved (items : json) (m : route_map) :
  parse_apigee_routes items = Ok m -> unreserved_map m.
Proof.
  unfold parse_apigee_routes, bind.
  destruct (negb (truthy items)); [intros H; inversion H; constructor|].
  destruct (py_iter items) as [l|]; [|discriminate].
  apply foldM_invariant; [|constructor].
  intros s x s' Hs Hx. eapply item_step_unreserved; eassumption.
Qed.

(** C4. No path of the route map parsing produces starts with, or is equal
    to, the reserved prefix "/__apigee__/"; and a match whose accepted path
    value starts with that prefix leaves the routes collected so far as
    they are. *)
Theorem parse_never_emits_reserved :
  (forall (items : list json) (m : route_map) (hostname : json)
          (paths : list string) (p : string),
      parse_apigee_routes (JArr items) = Ok m ->
      In (hostname, paths) m -> In p paths ->
      startswith p "/__apigee__/" = false /\ p <> "/__apigee__/")
  /\ (forall (routes : list string) (match_ uri : json) (s : string),
         py_get match_ "uri" (JObj []) = Ok uri ->
         accepted_prefix uri = Ok (JStr s) ->
         startswith s "/__apigee__/" = true ->
         match_step routes match_ = Ok routes).
Proof.
  split.
  - intros items m hostname paths p Hparse Hin Hp.
    apply parse_unreserved in Hparse.
    unfold unreserved_map in Hparse. rewrite Forall_forall in Hparse.
    specialize (Hparse _ Hin). simpl in Hparse.
    rewrite Forall_forall in Hparse. specialize (Hparse _ Hp).
    split; [exact Hparse|].
    intros ->. unfold unreserved in Hparse.
    change "/__apigee__/" with RESERVED_PREFIX in Hparse.
    now rewrite startswith_refl in Hparse.
  - intros routes match_ uri s Huri Hacc Hs.
    unfold match_step, bind. rewrite Huri, Hacc.
    change RESERVED_PREFIX with "/__apigee__/". rewrite Hs. simpl.
    now destruct (negb (s =? "")).
Qed.

(** ** First occurrences *)

Section FirstOccurrences.
Context {A : Type}.
Variable eqb : A -> A -> bool.

Lemma first_occurrences_snoc (l : list A) (x : A) :
  first_occurrences eqb (l ++ [x])
  = if existsb (fun y => eqb y x) l
    then first_occurrences eqb l
    else first_occurrences eqb l ++ [x].
Proof.
  induction l as [|a l IH]; simpl; [reflexivity|].
  rewrite IH. destruct (eqb a x) eqn:Hax; simpl;
    destruct (existsb (fun y => eqb y x) l); try reflexivity;
    rewrite filter_app; simpl; rewrite Hax; simpl;
    [now rewrite app_nil_r | reflexivity].
Qed.

Lemma first_occurrences_incl (l : list A) (x : A) :
  In x (first_occurrences eqb l) -> In x l.
Proof.
  induction l as [|a l IH]; simpl; [tauto|].
  intros [->|Hin]; [now left|]. right. apply IH.
  now apply filter_In in Hin.
Qed.

Lemma distinct_filter (f : A -> bool) (l : list A) :
  distinct eqb l -> distinct eqb (filter f l).
Proof.
  induction 1 as [|a l Ha Hl IH]; simpl; [constructor|].
  destruct (f a); [|exact IH].
  constructor; [|exact IH].
  rewrite Forall_forall in *. intros y Hy. apply Ha.
  now apply filter_In in Hy.
Qed.

Lemma distinct_first_occurrences (l : list A) :
  distinct eqb (first_occurrences eqb l).
Proof.
  induction l as [|a l IH]; simpl; constructor.
  - rewrite Forall_forall. intros y Hy. apply filter_In in Hy.
    destruct Hy as [_ Hy]. now apply negb_true_iff in Hy.
  - now apply distinct_filter.
Qed.

Hypothesis eqb_trans :
  forall a b c, eqb a b = true -> eqb b c = true -> eqb a c = true.

Lemma existsb_first_occurrences (l : list A) (x : A) :
  existsb (fun y => eqb y x) (first_occurrences eqb l)
  = existsb (fun y => eqb y x) l.
Proof.
  induction l as [|a l IH]; simpl; [reflexivity|].
  destruct (eqb a x) eqn:Hax; simpl; [reflexivity|].
  rewrite <- IH. clear IH.
  induction (first_occurrences eqb l) as [|y u IHu]; simpl; [reflexivity|].
  destruct (eqb a y) eqn:Hay; simpl.
  - destruct (eqb y x) eqn:Hyx; simpl; [|exact IHu].
    now rewrite (eqb_trans a y x Hay Hyx) in Hax.
  - now rewrite IHu.
Qed.
End FirstOccurrences.

Lemma NoDup_first_occurrences (l : list string) :
  NoDup (first_occurrences String.eqb l).
Proof.
  induction l as [|a l IH]; simpl; constructor.
  - intros Hin. apply filter_In in Hin. destruct Hin as [_ Hin].
    now rewrite String.eqb_refl in Hin.
  - now apply NoDup_filter.
Qed.

(** ** Equality of keys *)

Ltac eqb_to_eq :=
  repeat match goal with
    | H : (_ =? _)%Z = true |- _ => apply Z.eqb_eq in H
    | H : Bool.eqb _ _ = true |- _ => apply Bool.eqb_prop in H
    | H : (_ =? _)%string = true |- _ => apply String.eqb_eq in H
    end.

Lemma py_eq_sym (a b : json) : py_eq a b = py_eq b a.
Proof.
  destruct a, b; simpl; try reflexivity.
  - now destruct b, b0.
  - apply Z.eqb_sym.
  - apply Z.eqb_sym.
  - apply Z.eqb_sym.
  - apply String.eqb_sym.
Qed.

Lemma py_eq_trans (a b c : json) :
  py_eq a b = true -> py_eq b c = true -> py_eq a c = true.
Proof.
  destruct a, b; simpl; try discriminate; destruct c; simpl;
    try discriminate; intros H1 H2; eqb_to_eq; subst;
    try reflexivity;
    try apply Z.eqb_refl; try apply String.eqb_refl;
    try (apply Z.eqb_eq; congruence);
    try (now destruct b0);
    repeat match goal with b : bool |- _ => destruct b end;
    simpl in *; congruence.
Qed.

Lemma py_eq_refl (h : json) : hashable h = true -> py_eq h h = true.
Proof.
  destruct h; simpl; try discriminate; intros _.
  - reflexivity.
  - now destruct b.
  - apply Z.eqb_refl.
  - apply String.eqb_refl.
Qed.

(** ** Grouping (hostname, path) pairs *)

(** The keys of a map built from a key list are that list. *)
Lemma has_key_map (h : json) (P : json -> list string) (K : list json) :
  has_key h (map (fun k => (k, P k)) K) = existsb (fun k => py_eq k h) K.
Proof.
  unfold has_key. induction K as [|k K IH]; simpl; [reflexivity|].
  now rewrite IH.
Qed.

Lemma existsb_pointwise {A : Type} (f g : A -> bool) (l : list A) :
  (forall x, f x = g x) -> existsb f l = existsb g l.
Proof.
  intros H. induction l as [|a l IH]; simpl; [reflexivity | now rewrite H, IH].
Qed.

Lemma existsb_false_forall {A : Type} (g : A -> bool) (l : list A) :
  existsb g l = false -> forall x, In x l -> g x = false.
Proof.
  induction l as [|a l IH]; simpl; [tauto|].
  intros H x [->|Hin]; apply orb_false_iff in H; destruct H; auto.
Qed.

Lemma route_in_first_occurrences (r : string) (l : list string) :
  route_in r (first_occurrences String.eqb l)
  = existsb (fun y => (y =? r)%string) l.
Proof.
  unfold route_in.
  rewrite <- (existsb_first_occurrences String.eqb).
  - apply existsb_pointwise. intros y. apply String.eqb_sym.
  - intros a b c Hab Hbc. eqb_to_eq. subst. apply String.eqb_refl.
Qed.

Lemma has_key_group_first (h : json) (c : list (json * string)) :
  has_key h (group_first c) = existsb (fun k => py_eq k h) (map fst c).
Proof.
  unfold group_first. rewrite has_key_map.
  apply existsb_first_occurrences. exact py_eq_trans.
Qed.

Lemma paths_of_snoc (k h : json) (r : string) (c : list (json * string)) :
  paths_of k (c ++ [(h, r)])
  = paths_of k c ++ (if py_eq h k then [r] else []).
Proof.
  unfold paths_of. rewrite filter_app, map_app. simpl.
  now destruct (py_eq h k).
Qed.

Lemma paths_of_absent (h : json) (c : list (json * string)) :
  existsb (fun k => py_eq k h) (map fst c) = false -> paths_of h c = [].
Proof.
  unfold paths_of. induction c as [|[k p] c IH]; simpl; [reflexivity|].
  intros H. apply orb_false_iff in H. destruct H as [Hk Hc].
  rewrite Hk. now apply IH.
Qed.

(** Appending to the entry of [h] in a map with distinct keys touches that
    entry only. *)
Lemma add_route_map (h : json) (r : string) (P : json -> list string)
  (K : list json) :
  distinct py_eq K ->
  add_route h (map (fun k => (k, P k)) K) r
  = map (fun k =>
           (k, if py_eq k h
               then if route_in r (P k) then P k else P k ++ [r]
               else P k)) K.
Proof.
  induction 1 as [|k K Hk HK IH]; simpl; [reflexivity|].
  destruct (py_eq k h) eqn:Hkh.
  - f_equal. apply map_ext_in. intros k' Hin.
    rewrite Forall_forall in Hk. specialize (Hk k' Hin).
    destruct (py_eq k' h) eqn:Hk'h; [|reflexivity].
    rewrite py_eq_sym in Hk'h.
    now rewrite (py_eq_trans k h k' Hkh Hk'h) in Hk.
  - now rewrite IH.
Qed.

Lemma add_route_app_absent (h : json) (r : string) (m1 m2 : route_map) :
  has_key h m1 = false ->
  add_route h (m1 ++ m2) r = m1 ++ add_route h m2 r.
Proof.
  unfold has_key. induction m1 as [|[k p] m1 IH]; simpl; [reflexivity|].
  intros H. apply orb_false_iff in H. destruct H as [Hk Hm].
  rewrite Hk. now rewrite IH.
Qed.

(** One more pair, when its hostname is already a key. *)
Lemma add_route_group_present (h : json) (r : string) (c : list (json * string)) :
  has_key h (group_first c) = true ->
  add_route h (group_first c) r = group_first (c ++ [(h, r)]).
Proof.
  intros Hkey. rewrite has_key_group_first in Hkey.
  unfold group_first at 1.
  rewrite (add_route_map h r (fun k => first_occurrences String.eqb (paths_of k c)))
    by apply distinct_first_occurrences.
  unfold group_first. rewrite map_app. simpl.
  rewrite first_occurrences_snoc, Hkey.
  apply map_ext. intros k. f_equal.
  rewrite paths_of_snoc, (py_eq_sym h k).
  destruct (py_eq k h).
  - rewrite first_occurrences_snoc, route_in_first_occurrences. reflexivity.
  - now rewrite app_nil_r.
Qed.

(** One more pair, when its hostname is new. *)
Lemma add_route_group_absent (h : json) (r : string) (c : list (json * string)) :
  hashable h = true ->
  has_key h (group_first c) = false ->
  add_route h (group_first c ++ [(h, [])]) r = group_first (c ++ [(h, r)]).
Proof.
  intros Hh Hkey. rewrite add_route_app_absent by exact Hkey.
  rewrite has_key_group_first in Hkey.
  simpl. rewrite (py_eq_refl h Hh). simpl.
  unfold group_first. rewrite (map_app fst). simpl.
  rewrite first_occurrences_snoc, Hkey, map_app. simpl.
  rewrite paths_of_snoc, (py_eq_refl h Hh), (paths_of_absent h c Hkey). simpl.
  f_equal. apply map_ext_in. intros k Hin. f_equal.
  rewrite paths_of_snoc.
  apply first_occurrences_incl in Hin.
  rewrite (py_eq_sym h k), (existsb_false_forall _ _ Hkey k Hin).
  now rewrite app_nil_r.
Qed.

Lemma add_route_setdefault_group (h : json) (r : string)
  (c : list (json * string)) :
  hashable h = true ->
  add_route h (setdefault (group_first c) h) r = group_first (c ++ [(h, r)]).
Proof.
  intros Hh. unfold setdefault.
  destruct (has_key h (group_first c)) eqn:Hkey.
  - now apply add_route_group_present.
  - now apply add_route_group_absent.
Qed.

Lemma has_key_after_pair (h : json) (r : string) (c : list (json * string)) :
  hashable h = true -> has_key h (group_first (c ++ [(h, r)])) = true.
Proof.
  intros Hh. rewrite has_key_group_first, map_app, existsb_app. simpl.
  rewrite (py_eq_refl h Hh). now rewrite orb_true_r.
Qed.

Lemma fold_add_route_group (h : json) (routes : list string)
  (c : list (json * string)) :
  hashable h = true ->
  has_key h (group_first c) = true ->
  fold_left (add_route h) routes (group_first c)
  = group_first (c ++ map (pair h) routes).
Proof.
  intros Hh. revert c. induction routes as [|r routes IH]; intros c Hkey; simpl.
  - now rewrite app_nil_r.
  - rewrite add_route_group_present by exact Hkey.
    rewrite IH by now apply has_key_after_pair.
    now rewrite <- app_assoc.
Qed.

(** The loop body for one hostname, on a resource with at least one route. *)
Lemma hostname_step_group (h : json) (r : string) (routes : list string)
  (c : list (json * string)) :
  hashable h = true ->
  fold_left (add_route h) (r :: routes) (setdefault (group_first c) h)
  = group_first (c ++ map (pair h) (r :: routes)).
Proof.
  intros Hh. simpl. rewrite add_route_setdefault_group by exact Hh.
  rewrite fold_add_route_group; [|exact Hh | now apply has_key_after_pair].
  now rewrite <- app_assoc.
Qed.

(** ** The parser groups the pairs it encounters *)

Lemma hostnames_loop_group (r : string) (routes : list string) (hs : list json)
  (c : list (json * string)) (m : route_map) :
  foldM (hostname_step (r :: routes)) hs (group_first c) = Ok m ->
  forallb hashable hs = true
  /\ m = group_first (c ++ flat_map (fun h => map (pair h) (r :: routes)) hs).
Proof.
  revert c. induction hs as [|h hs IH]; intros c H.
  - inversion H; subst. split; [reflexivity|]. simpl. now rewrite app_nil_r.
  - cbn [foldM] in H. unfold hostname_step at 1 in H.
    destruct (hashable h) eqn:Hh; [|discriminate].
    cbn [bind] in H. rewrite hostname_step_group in H by exact Hh.
    apply IH in H. destruct H as [Hall ->]. split.
    + simpl. now rewrite Hh, Hall.
    + cbn [flat_map]. now rewrite app_assoc.
Qed.

Lemma item_step_group (c : list (json * string)) (item : json) (m : route_map) :
  item_step (group_first c) item = Ok m ->
  exists ps, item_pairs item = Ok ps /\ m = group_first (c ++ ps).
Proof.
  unfold item_step, item_pairs, bind. intros H.
  destruct (item_fields item) as [[hostnames rules]|]; [|discriminate].
  destruct (negb (truthy hostnames) || negb (truthy rules)).
  { inversion H; subst. exists []. now rewrite app_nil_r. }
  destruct (collect_routes rules) as [[|r routes]|]; [| |discriminate].
  { inversion H; subst. exists []. now rewrite app_nil_r. }
  destruct (py_iter hostnames) as [hs|]; [|discriminate].
  apply hostnames_loop_group in H. destruct H as [Hall ->].
  rewrite Hall. eexists. split; reflexivity.
Qed.

Lemma parse_loop_group (items : list json) (c : list (json * string))
  (m : route_map) :
  foldM item_step items (group_first c) = Ok m ->
  exists c',
    foldM (fun acc item => ps <- item_pairs item ;; Ok (acc ++ ps)) items c = Ok c'
    /\ m = group_first c'.
Proof.
  revert c. induction items as [|item items IH]; intros c H; simpl in H.
  - inversion H; subst. exists c. split; reflexivity.
  - destruct (item_step (group_first c) item) as [m1|] eqn:Hstep; [|discriminate].
    simpl in H. apply item_step_group in Hstep. destruct Hstep as [ps [Hps ->]].
    apply IH in H. destruct H as [c' [Hc' ->]].
    exists c'. split; [|reflexivity]. simpl. rewrite Hps. exact Hc'.
Qed.

Lemma parse_list (items : list json) :
  parse_apigee_routes (JArr items) = foldM item_step items [].
Proof. now destruct items. Qed.

(** *** The pairs are listed in document order *)

(** A loop whose body only appends to its state appends, to any start, what
    it collects from the empty start. *)
Lemma foldM_appends {A B : Type} (body : list B -> A -> result (list B))
  (l : list A) :
  (forall s x, body s x = (new <- body [] x ;; Ok (s ++ new))) ->
  forall s, foldM body l s = (new <- foldM body l [] ;; Ok (s ++ new)).
Proof.
  intros Hbody. induction l as [|x l IH]; intros s; simpl.
  - now rewrite app_nil_r.
  - rewrite (Hbody s x). destruct (body [] x) as [new|e]; simpl; [|reflexivity].
    rewrite (IH (s ++ new)), (IH new).
    destruct (foldM body l []) as [rest|e]; simpl; [|reflexivity].
    now rewrite app_assoc.
Qed.

Lemma match_step_appends (routes : list string) (match_ : json) :
  match_step routes match_ = (new <- match_step [] match_ ;; Ok (routes ++ new)).
Proof.
  unfold match_step, bind.
  destruct (py_get match_ "uri" (JObj [])) as [uri|]; [|reflexivity].
  destruct (accepted_prefix uri) as [prefix|]; [|reflexivity].
  destruct (truthy prefix); [|now rewrite app_nil_r].
  destruct prefix; try reflexivity.
  destruct (negb (startswith s RESERVED_PREFIX)); [reflexivity|].
  now rewrite app_nil_r.
Qed.

Lemma rule_step_appends (routes : list string) (rule : json) :
  rule_step routes rule = (new <- rule_step [] rule ;; Ok (routes ++ new)).
Proof.
  unfold rule_step, bind.
  destruct (py_get rule "matches" (JArr [])) as [ms|]; [|reflexivity].
  destruct (py_iter ms) as [l|]; [|reflexivity].
  apply foldM_appends. apply match_step_appends.
Qed.

(** The routes of a resource: those of its first rule, then those of the
    other rules. *)
Lemma collect_routes_cons (rule : json) (rules : list json) :
  collect_routes (JArr (rule :: rules))
  = (first <- rule_step [] rule ;;
     rest <- collect_routes (JArr rules) ;;
     Ok (first ++ rest)).
Proof.
  unfold collect_routes. simpl.
  destruct (rule_step [] rule) as [first|e]; simpl; [|reflexivity].
  apply (foldM_appends rule_step rules rule_step_appends).
Qed.

(** The pairs of a resource list: those of its first resource, then those
    of the other resources. *)
Lemma encounters_cons (item : json) (items : list json) :
  encounters (item :: items)
  = (first <- item_pairs item ;;
     rest <- encounters items ;;
     Ok (first ++ rest)).
Proof.
  unfold encounters. simpl.
  destruct (item_pairs item) as [first|e]; simpl; [|reflexivity].
  apply (foldM_appends (fun acc x => ps <- item_pairs x ;; Ok (acc ++ ps))).
  intros s x. destruct (item_pairs x); reflexivity.
Qed.

(** *** The parser against the input document *)

Lemma accepted_route (routes routes' : list string) (accepted : json) :
  (if truthy accepted
   then match accepted with
        | JStr s =>
            if negb (startswith s RESERVED_PREFIX) then Ok (routes ++ [s])
            else Ok routes
        | _ => Raise AttributeError
        end
   else Ok routes) = Ok routes' ->
  routes' = routes
            ++ match accepted with
               | JStr s =>
                   if (s =? "")%string || startswith s "/__apigee__/"
                   then [] else [s]
               | _ => []
               end.
Proof.
  change "/__apigee__/" with RESERVED_PREFIX.
  destruct accepted as [|b|n|s|l|kv]; simpl;
    try (destruct b); try (destruct (n =? 0)%Z); try (destruct l);
    try (destruct kv); simpl; try discriminate;
    try (intros H; inversion H; now rewrite app_nil_r).
  destruct (s =? "")%string; simpl.
  - intros H. inversion H. now rewrite app_nil_r.
  - destruct (startswith s RESERVED_PREFIX); simpl; intros H; inversion H;
      [now rewrite app_nil_r | reflexivity].
Qed.

(** A match adds its path value at the end of the routes. *)
Lemma match_step_paths (routes routes' : list string) (match_ : json) :
  match_step routes match_ = Ok routes' ->
  routes' = routes ++ match_paths match_.
Proof.
  destruct match_ as [| | | | |kv]; try discriminate.
  unfold match_step, match_paths, accepted_prefix, bind, py_get, field.
  destruct (match dict_lookup "uri" kv with Some v => v | None => JObj [] end)
    as [| | | | |uri]; try discriminate.
  destruct (truthy (match dict_lookup "prefixPattern" uri with
                    | Some v => v | None => JNull end));
    apply accepted_route.
Qed.

Lemma matches_loop_paths (ms : list json) (routes routes' : list string) :
  foldM match_step ms routes = Ok routes' ->
  routes' = routes ++ flat_map match_paths ms.
Proof.
  revert routes. induction ms as [|x ms IH]; intros routes H; simpl in H.
  - inversion H. now rewrite app_nil_r.
  - destruct (match_step routes x) as [r1|] eqn:Hx; [|discriminate]. simpl in H.
    apply match_step_paths in Hx. apply IH in H. subst.
    simpl. now rewrite app_assoc.
Qed.

(** A loop whose body calls [.get] on its element visits no string. *)
Lemma loop_over_strings {S : Type} (body : S -> json -> result S)
  (l : list json) (s s' : S) :
  (forall t x, is_string x = true -> body t x = Raise AttributeError) ->
  Forall (fun x => is_string x = true) l ->
  foldM body l s = Ok s' -> l = [].
Proof.
  intros Hbody Hall H. destruct l as [|x l]; [reflexivity|].
  inversion Hall; subst. simpl in H. now rewrite Hbody in H.
Qed.

Lemma strings_of_characters (s : string) :
  Forall (fun x => is_string x = true)
         (map (fun c => JStr (String c "")) (list_ascii_of_string s)).
Proof. apply Forall_forall. intros x Hx. apply in_map_iff in Hx.
       now destruct Hx as (c & <- & _). Qed.

Lemma strings_of_keys (kv : list (string * json)) :
  Forall (fun x => is_string x = true) (map (fun e => JStr (fst e)) kv).
Proof. apply Forall_forall. intros x Hx. apply in_map_iff in Hx.
       now destruct Hx as (e & <- & _). Qed.

(** A rule adds the path values of its matches, in the order of the
    matches. *)
Lemma rule_step_paths (routes routes' : list string) (rule : json) :
  rule_step routes rule = Ok routes' ->
  routes' = routes ++ rule_paths rule.
Proof.
  destruct rule as [| | | | |kv]; try discriminate.
  unfold rule_step, rule_paths, bind, py_get, field.
  destruct (match dict_lookup "matches" kv with Some v => v | None => JArr [] end)
    as [| | |s|ms|o]; try discriminate; simpl.
  - intros H.
    apply (loop_over_strings match_step) in H as Hnil;
      [|now intros t [] | apply strings_of_characters].
    rewrite Hnil in H. inversion H. now rewrite app_nil_r.
  - apply matches_loop_paths.
  - intros H.
    apply (loop_over_strings match_step) in H as Hnil;
      [|now intros t [] | apply strings_of_keys].
    rewrite Hnil in H. inversion H. now rewrite app_nil_r.
Qed.

Lemma rules_loop_paths (rs : list json) (routes routes' : list string) :
  foldM rule_step rs routes = Ok routes' ->
  routes' = routes ++ flat_map rule_paths rs.
Proof.
  revert routes. induction rs as [|x rs IH]; intros routes H; simpl in H.
  - inversion H. now rewrite app_nil_r.
  - destruct (rule_step routes x) as [r1|] eqn:Hx; [|discriminate]. simpl in H.
    apply rule_step_paths in Hx. apply IH in H. subst.
    simpl. now rewrite app_assoc.
Qed.

(** The routes lines 49-55 collect are the path values of the rules, in
    document order. *)
Lemma collect_routes_paths (rules : json) (routes : list string) :
  collect_routes rules = Ok routes -> routes = resource_paths rules.
Proof.
  unfold collect_routes, resource_paths, bind.
  destruct rules as [| | |s|rs|o]; try discriminate; simpl.
  - intros H.
    apply (loop_over_strings rule_step) in H as Hnil;
      [|now intros t [] | apply strings_of_characters].
    rewrite Hnil in H. now inversion H.
  - apply (rules_loop_paths rs []).
  - intros H.
    apply (loop_over_strings rule_step) in H as Hnil;
      [|now intros t [] | apply strings_of_keys].
    rewrite Hnil in H. now inversion H.
Qed.

Lemma py_iter_members (v : json) (l : list json) :
  py_iter v = Ok l -> l = members v.
Proof. destruct v; simpl; intros H; now inversion H. Qed.

Lemma falsy_members (v : json) : truthy v = false -> members v = [].
Proof.
  destruct v as [|b|n|s|l|kv]; simpl; try reflexivity.
  - destruct s; [reflexivity | discriminate].
  - destruct l; [reflexivity | discriminate].
  - destruct kv; [reflexivity | discriminate].
Qed.

Lemma falsy_resource_paths (v : json) :
  truthy v = false -> resource_paths v = [].
Proof.
  destruct v as [| | | |l|]; simpl; try reflexivity.
  destruct l; [reflexivity | discriminate].
Qed.

Lemma no_paths_no_pairs (hs : list json) :
  flat_map (fun h : json => map (pair h) (@nil string)) hs = [].
Proof. induction hs as [|h hs IH]; simpl; [reflexivity | exact IH]. Qed.

Lemma item_fields_document (item hostnames rules : json) :
  item_fields item = Ok (hostnames, rules) ->
  hostnames = field (field item "spec" (JObj [])) "hostnames" JNull
  /\ rules = field (field (field item "spec" (JObj [])) "rules" (JObj []))
                   "http" (JArr []).
Proof.
  destruct item as [| | | | |kv]; try discriminate.
  unfold item_fields, bind, py_get, field.
  destruct (match dict_lookup "spec" kv with Some v => v | None => JObj [] end)
    as [| | | | |sp]; try discriminate.
  destruct (match dict_lookup "rules" sp with Some v => v | None => JObj [] end)
    as [| | | | |ru]; try discriminate.
  intros H. inversion H. split; reflexivity.
Qed.

(** The pairs one pass of the loop adds are the pairs of the resource in
    document order. *)
Lemma item_pairs_document (item : json) (ps : list (json * string)) :
  item_pairs item = Ok ps -> ps = document_pairs item.
Proof.
  unfold item_pairs, document_pairs, bind. intros H.
  destruct (item_fields item) as [[hostnames rules]|] eqn:Hf; [|discriminate].
  apply item_fields_document in Hf. destruct Hf as [<- <-].
  destruct (truthy hostnames) eqn:Hth; simpl in H.
  2:{ inversion H. now rewrite (falsy_members _ Hth). }
  destruct (truthy rules) eqn:Htr; simpl in H.
  2:{ inversion H. rewrite (falsy_resource_paths _ Htr).
      now rewrite no_paths_no_pairs. }
  destruct (collect_routes rules) as [routes|] eqn:Hc; [|discriminate].
  apply collect_routes_paths in Hc. rewrite <- Hc.
  destruct routes as [|r routes].
  { inversion H. now rewrite no_paths_no_pairs. }
  destruct (py_iter hostnames) as [hs|] eqn:Hi; [|discriminate].
  apply py_iter_members in Hi. rewrite <- Hi.
  destruct (forallb hashable hs); [|discriminate]. now inversion H.
Qed.

Lemma encounters_loop_document (items : list json) (c c' : list (json * string)) :
  foldM (fun acc item => ps <- item_pairs item ;; Ok (acc ++ ps)) items c = Ok c' ->
  c' = c ++ flat_map document_pairs items.
Proof.
  revert c. induction items as [|item items IH]; intros c H; simpl in H.
  - inversion H. now rewrite app_nil_r.
  - destruct (item_pairs item) as [ps|] eqn:Hps; [|discriminate]. simpl in H.
    apply item_pairs_document in Hps. apply IH in H. subst.
    simpl. now rewrite app_assoc.
Qed.

(** C5. In the route map parsing produces, no hostname's path list repeats
    an entry, whatever the matches, rules and resources repeat.  The map is
    the grouping of the (hostname, path) pairs of the input document, taken
    in document order (resources, then hostnames, then rules, then
    matches): hostnames in order of first occurrence, each with its paths
    in order of first occurrence. *)
Theorem parse_dedup_first_encounter (items : list json) (m : route_map) :
  parse_apigee_routes (JArr items) = Ok m ->
  (forall hostname paths, In (hostname, paths) m -> NoDup paths)
  /\ distinct py_eq (map fst m)
  /\ m = group_first (flat_map document_pairs items).
Proof.
  rewrite parse_list. intros H.
  apply (parse_loop_group items []) in H. destruct H as [pairs [Henc ->]].
  apply encounters_loop_document in Henc. simpl in Henc. subst pairs.
  split; [|split].
  - intros hostname paths Hin. unfold group_first in Hin.
    apply in_map_iff in Hin. destruct Hin as [k [Heq _]].
    inversion Heq; subst. apply NoDup_first_occurrences.
  - unfold group_first. rewrite map_map. simpl. rewrite map_id.
    apply distinct_first_occurrences.
  - reflexivity.
Qed.

(** ** prefixPattern and prefix *)

(** C6, as the code has it.  The accepted path value of a URI matcher is
    the "prefixPattern" value when that field is present and true as a
    condition (a non-empty string); when "prefixPattern" is absent, null or
    empty, it is the "prefix" value, or [None] when "prefix" is absent. *)
Theorem accepted_prefix_precedence (uri : list (string * json)) :
  accepted_prefix (JObj uri)
  = Ok (let prefix :=
          match dict_lookup "prefix" uri with Some v => v | None => JNull end in
        match dict_lookup "prefixPattern" uri with
        | Some pattern => if truthy pattern then pattern else prefix
        | None => prefix
        end).
Proof.
  unfold accepted_prefix, bind. simpl.
  destruct (dict_lookup "prefixPattern" uri) as [pattern|]; simpl;
    [destruct (truthy pattern)|]; reflexivity.
Qed.

(** C6, as stated, fails: a matcher holding both fields, with an empty
    "prefixPattern", yields the "prefix" value. *)
Lemma empty_prefixPattern_yields_prefix :
  let uri := [("prefixPattern", JStr ""); ("prefix", JStr "/v1")] in
  dict_lookup "prefixPattern" uri = Some (JStr "")
  /\ dict_lookup "prefix" uri = Some (JStr "/v1")
  /\ accepted_prefix (JObj uri) = Ok (JStr "/v1")
  /\ accepted_prefix (JObj uri) <> Ok (JStr "")
  /\ match_step [] (JObj [("uri", JObj uri)]) = Ok ["/v1"].
Proof.
  repeat split; try reflexivity. discriminate.
Qed.

(** ** Resources that are skipped *)


(** The reads of lines 45-47 succeed exactly on an object whose "spec" and
    "rules", when present, are objects; they then return the "hostnames"
    value, [None] when absent, and the "rules.http" value, [[]] when
    absent. *)
Lemma item_fields_shape (item hostnames rules : json) :
  item_fields item = Ok (hostnames, rules)
  <-> exists kv sp ru,
        item = JObj kv
        /\ get_field kv "spec" (JObj []) = JObj sp
        /\ get_field sp "rules" (JObj []) = JObj ru
        /\ hostnames = get_field sp "hostnames" JNull
        /\ rules = get_field ru "http" (JArr []).
Proof.
  split.
  - destruct item as [| | | | |kv]; try discriminate.
    unfold item_fields, bind, py_get. fold (get_field kv "spec" (JObj [])).
    destruct (get_field kv "spec" (JObj [])) as [| | | | |sp] eqn:Hsp;
      try discriminate.
    fold (get_field sp "hostnames" JNull). fold (get_field sp "rules" (JObj [])).
    destruct (get_field sp "rules" (JObj [])) as [| | | | |ru] eqn:Hru;
      try discriminate.
    fold (get_field ru "http" (JArr [])).
    intros H. inversion H. exists kv, sp, ru. repeat split; assumption.
  - intros (kv & sp & ru & -> & Hsp & Hru & -> & ->).
    unfold item_fields, bind, py_get. fold (get_field kv "spec" (JObj [])).
    rewrite Hsp. fold (get_field sp "rules" (JObj [])). now rewrite Hru.
Qed.



(** ** The program *)

Lemma resolved_address_nonempty (c : cluster) (ns name ip : string) :
  get_k8s_service_ip c ns name = Ok (Some ip) -> truthy (JStr ip) = true.
Proof.
  unfold get_k8s_service_ip.
  destruct (read_namespaced_service c name ns) as [service|]; [|discriminate].
  destruct (spec service) as [service_spec|]; [|discriminate].
  destruct (cluster_ip service_spec) as [ip'|]; [|discriminate].
  destruct (truthy (JStr ip')) eqn:Ht; simpl; [|discriminate].
  destruct (ip' =? "None")%string; [discriminate|].
  intros H. inversion H; subst. exact Ht.
Qed.

(** What [main] does once the arguments are parsed, the address is
    resolved and the resources are fetched. *)
Lemma main_after_fetch (c : cluster) (inv : invocation) (a : args)
  (service_ip : string) (items : json) :
  parse_args inv = Parsed a ->
  get_k8s_service_ip c (namespace a) (service_name a) = Ok (Some service_ip) ->
  get_apigee_routes_from_cluster c (namespace a) = Ok items ->
  main c inv
  = match items with
    | JNull => sys_exit 1
    | _ =>
        match parse_apigee_routes items with
        | Raise e => uncaught e
        | Ok [] => dump_to inv (outfile a) None (JArr [])
        | Ok route_map_ =>
            dump_to inv (outfile a) (Some 2)
              (JArr (generate_prometheus_targets route_map_ service_ip))
        end
    end.
Proof.
  intros Hargs Hip Hitems. unfold main. rewrite Hargs.
  destruct (incluster_config c) eqn:Hcfg; cbn [negb].
  - rewrite Hip, (resolved_address_nonempty _ _ _ _ Hip), Hitems. cbn [negb].
    now destruct items.
  - unfold get_apigee_routes_from_cluster in Hitems. rewrite Hcfg in Hitems.
    now inversion Hitems.
Qed.

(** C8. When the fetched resource list parses to an empty route map, the
    program writes the text "[]" to the output file and ends with exit
    status 0.  (The command line was parsed and the output file can be
    opened for writing.) *)
Theorem empty_route_map_writes_empty_array (c : cluster) (inv : invocation)
  (a : args) (service_ip : string) (items : json) :
  parse_args inv = Parsed a ->
  writable inv (outfile a) = true ->
  get_k8s_service_ip c (namespace a) (service_name a) = Ok (Some service_ip) ->
  get_apigee_routes_from_cluster c (namespace a) = Ok items ->
  items <> JNull ->
  parse_apigee_routes items = Ok [] ->
  main c inv = {| exit_code := 0; written := Some (outfile a, "[]") |}.
Proof.
  intros Hargs Hw Hip Hitems Hnn Hparse.
  rewrite (main_after_fetch c inv a service_ip items Hargs Hip Hitems), Hparse.
  unfold dump_to. rewrite Hw.
  destruct items; try reflexivity. now elim Hnn.
Qed.

(** C9. Two runs that resolve the same address and fetch the same resource
    list produce the same target sequence, end with the same exit status
    and write the same file contents, byte for byte.  (Both command lines
    were parsed, and the output file can be opened in both runs or in
    neither.) *)
Theorem output_deterministic (c1 c2 : cluster) (inv1 inv2 : invocation)
  (a1 a2 : args) (service_ip : string) (items : json) :
  parse_args inv1 = Parsed a1 ->
  parse_args inv2 = Parsed a2 ->
  writable inv1 (outfile a1) = writable inv2 (outfile a2) ->
  get_k8s_service_ip c1 (namespace a1) (service_name a1) = Ok (Some service_ip) ->
  get_k8s_service_ip c2 (namespace a2) (service_name a2) = Ok (Some service_ip) ->
  get_apigee_routes_from_cluster c1 (namespace a1) = Ok items ->
  get_apigee_routes_from_cluster c2 (namespace a2) = Ok items ->
  (forall m1 m2,
      parse_apigee_routes items = Ok m1 ->
      parse_apigee_routes items = Ok m2 ->
      generate_prometheus_targets m1 service_ip
      = generate_prometheus_targets m2 service_ip)
  /\ exit_code (main c1 inv1) = exit_code (main c2 inv2)
  /\ option_map snd (written (main c1 inv1))
     = option_map snd (written (main c2 inv2)).
Proof.
  intros Hargs1 Hargs2 Hw Hip1 Hip2 Hit1 Hit2. split.
  - intros m1 m2 H1 H2. rewrite H1 in H2. now inversion H2.
  - rewrite (main_after_fetch c1 inv1 a1 service_ip items Hargs1 Hip1 Hit1).
    rewrite (main_after_fetch c2 inv2 a2 service_ip items Hargs2 Hip2 Hit2).
    unfold dump_to. rewrite Hw.
    destruct items; try (split; reflexivity);
      destruct (parse_apigee_routes _) as [[|e m]|]; try (split; reflexivity);
      destruct (writable inv2 (outfile a2)); split; reflexivity.
Qed.

(** C10. A Service whose ClusterIP is missing, empty or the string "None"
    makes the resolver return the failure signal, and the run, once its
    command line is parsed, ends with exit status 1 and writes nothing. *)
Theorem headless_service_aborts (c : cluster) (inv : invocation) (a : args)
  (service : V1Service) (service_spec : V1ServiceSpec) :
  parse_args inv = Parsed a ->
  read_namespaced_service c (service_name a) (namespace a) = Reply service ->
  spec service = Some service_spec ->
  cluster_ip service_spec = None \/ cluster_ip service_spec = Some ""
  \/ cluster_ip service_spec = Some "None" ->
  get_k8s_service_ip c (namespace a) (service_name a) = Ok None
  /\ main c inv = {| exit_code := 1; written := None |}.
Proof.
  intros Hargs Hreply Hspec Hip.
  assert (Hres : get_k8s_service_ip c (namespace a) (service_name a) = Ok None).
  { unfold get_k8s_service_ip. rewrite Hreply, Hspec.
    destruct Hip as [->|[->| ->]]; reflexivity. }
  split; [exact Hres|].
  unfold main. rewrite Hargs, Hres. now destruct (incluster_config c).
Qed.

(** ** Parsing returns on resources of the expected shape *)

Lemma foldM_total {A S : Type} (body : S -> A -> result S) (l : list A) :
  (forall s x, In x l -> exists s', body s x = Ok s') ->
  forall s, exists s', foldM body l s = Ok s'.
Proof.
  induction l as [|x l IH]; intros Hbody s; simpl.
  - now exists s.
  - destruct (Hbody s x (or_introl eq_refl)) as [s1 ->]. simpl.
    apply IH. intros s2 y Hy. apply Hbody. now right.
Qed.

Lemma accepted_prefix_total (uri : json) :
  conforms_uri uri = true ->
  exists v, accepted_prefix uri = Ok v /\ optional_string v = true.
Proof.
  destruct uri as [| | | | |kv]; try discriminate. simpl.
  intros H. apply andb_true_iff in H. destruct H as [Hpat Hpre].
  unfold accepted_prefix, bind, py_get. fold (get_field kv "prefixPattern" JNull).
  destruct (truthy (get_field kv "prefixPattern" JNull)); eexists; split;
    try reflexivity; assumption.
Qed.

Lemma match_step_total (routes : list string) (match_ : json) :
  conforms_match match_ = true ->
  exists routes', match_step routes match_ = Ok routes'.
Proof.
  destruct match_ as [| | | | |kv]; try discriminate. simpl. intros H.
  unfold match_step, bind, py_get. fold (get_field kv "uri" (JObj [])).
  destruct (accepted_prefix_total _ H) as [v [-> Hv]].
  destruct v as [| | |s| |]; try discriminate; simpl.
  - now eexists.
  - destruct (negb (s =? "")%string); [|now eexists].
    destruct (negb (startswith s RESERVED_PREFIX)); now eexists.
Qed.

Lemma rule_step_total (routes : list string) (rule : json) :
  conforms_rule rule = true ->
  exists routes', rule_step routes rule = Ok routes'.
Proof.
  destruct rule as [| | | | |kv]; try discriminate. simpl. intros H.
  unfold rule_step, bind, py_get. fold (get_field kv "matches" (JArr [])).
  destruct (get_field kv "matches" (JArr [])) as [| | | |ms|]; try discriminate.
  simpl. apply foldM_total. intros s x Hx. apply match_step_total.
  rewrite forallb_forall in H. now apply H.
Qed.

Lemma collect_routes_total (rules : json) :
  conforms_http rules = true ->
  exists routes, collect_routes rules = Ok routes.
Proof.
  destruct rules as [| | | |rs|]; try discriminate. simpl. intros H.
  unfold collect_routes, bind. simpl.
  apply foldM_total. intros s x Hx. apply rule_step_total.
  rewrite forallb_forall in H. now apply H.
Qed.

Lemma item_step_total (m : route_map) (item : json) :
  conforms_item item = true ->
  exists m', item_step m item = Ok m'.
Proof.
  destruct item as [| | | | |kv]; try discriminate. simpl.
  unfold item_step, item_fields, bind, py_get.
  fold (get_field kv "spec" (JObj [])).
  destruct (get_field kv "spec" (JObj [])) as [| | | | |sp]; try discriminate.
  fold (get_field sp "hostnames" JNull). fold (get_field sp "rules" (JObj [])).
  destruct (get_field sp "rules" (JObj [])) as [| | | | |ru];
    try (now rewrite andb_false_r).
  fold (get_field ru "http" (JArr [])).
  intros H. apply andb_true_iff in H. destruct H as [Hh Hr].
  destruct (negb (truthy (get_field sp "hostnames" JNull))
            || negb (truthy (get_field ru "http" (JArr [])))) eqn:Hskip;
    [now eexists|].
  destruct (collect_routes_total _ Hr) as [routes ->].
  destruct routes as [|r routes]; [now eexists|].
  destruct (get_field sp "hostnames" JNull) as [| | | |hs|]; try discriminate.
  simpl. apply foldM_total. intros s h Hin. unfold hostname_step.
  simpl in Hh. rewrite forallb_forall in Hh. specialize (Hh h Hin).
  destruct h; try discriminate. now eexists.
Qed.

(** Parsing a list of resources of the expected shape raises no exception. *)
Theorem parse_total (items : list json) :
  forallb conforms_item items = true ->
  exists m, parse_apigee_routes (JArr items) = Ok m.
Proof.
  intros H. rewrite parse_list. apply foldM_total.
  intros s x Hx. apply item_step_total.
  rewrite forallb_forall in H. now apply H.
Qed.

(** ** The theorems at concrete inputs *)

Lemma target_url_prefix_witness :
  parse_apigee_routes (JArr [sample_item])
  = Ok [(JStr "a.example.com", ["/v1/orders"])]
  /\ exists url,
       py_get (target "10.0.0.5" (JStr "a.example.com") "/v1/orders")
              "targets" JNull
       = Ok (JArr [JStr url])
       /\ startswith url "https://10.0.0.5/healthz" = true.
Proof.
  split; [reflexivity|].
  apply (target_url_prefix [sample_item] "10.0.0.5"
           [(JStr "a.example.com", ["/v1/orders"])]);
    [reflexivity | left; reflexivity].
Defined.

Lemma parse_never_emits_reserved_witness :
  (startswith "/v1/orders" "/__apigee__/" = false
   /\ "/v1/orders" <> "/__apigee__/")
  /\ match_step ["/v1/orders"]
       (JObj [("uri", JObj [("prefix", JStr "/__apigee__/internal")])])
     = Ok ["/v1/orders"].
Proof.
  split.
  - apply (proj1 parse_never_emits_reserved [sample_item]
             [(JStr "a.example.com", ["/v1/orders"])]
             (JStr "a.example.com") ["/v1/orders"] "/v1/orders");
      [reflexivity | left; reflexivity | left; reflexivity].
  - apply (proj2 parse_never_emits_reserved ["/v1/orders"]
             (JObj [("uri", JObj [("prefix", JStr "/__apigee__/internal")])])
             (JObj [("prefix", JStr "/__apigee__/internal")])
             "/__apigee__/internal");
      reflexivity.
Defined.

Lemma parse_dedup_first_encounter_witness :
  let items :=
    [ resource (JArr [JStr "a"; JStr "b"])
        [("prefix", JStr "/x"); ("prefixPattern", JStr "/y"); ("prefix", JStr "/x")];
      resource (JArr [JStr "b"; JStr "c"; JStr "b"])
        [("prefix", JStr "/y"); ("prefix", JStr "/z")] ] in
  let m := [ (JStr "a", ["/x"; "/y"]);
             (JStr "b", ["/x"; "/y"; "/z"]);
             (JStr "c", ["/y"; "/z"]) ] in
  (forall hostname paths, In (hostname, paths) m -> NoDup paths)
  /\ distinct py_eq (map fst m)
  /\ m = group_first (flat_map document_pairs items).
Proof.
  apply (parse_dedup_first_encounter
           [ resource (JArr [JStr "a"; JStr "b"])
               [("prefix", JStr "/x"); ("prefixPattern", JStr "/y");
                ("prefix", JStr "/x")];
             resource (JArr [JStr "b"; JStr "c"; JStr "b"])
               [("prefix", JStr "/y"); ("prefix", JStr "/z")] ]).
  reflexivity.
Defined.


Lemma empty_route_map_writes_empty_array_witness :
  parse_apigee_routes (JArr [sample_item_no_rules]) = Ok []
  /\ main (sample_cluster (Some "10.0.0.5")
             (JObj [("items", JArr [sample_item_no_rules])]))
          (invoke sample_args)
     = {| exit_code := 0; written := Some ("apigee_targets.json", "[]") |}.
Proof.
  split; [reflexivity|].
  apply (empty_route_map_writes_empty_array
           (sample_cluster (Some "10.0.0.5")
              (JObj [("items", JArr [sample_item_no_rules])]))
           (invoke sample_args) sample_args "10.0.0.5"
           (JArr [sample_item_no_rules]));
    [reflexivity | reflexivity | reflexivity | reflexivity | discriminate
    | reflexivity].
Defined.

Lemma output_deterministic_witness :
  let run1 :=
    main (sample_cluster (Some "10.0.0.5") (JObj [("items", JArr [sample_item])]))
         (invoke sample_args) in
  let run2 :=
    main (other_cluster "10.0.0.5" (JArr [sample_item])) (invoke other_args) in
  (forall m1 m2,
      parse_apigee_routes (JArr [sample_item]) = Ok m1 ->
      parse_apigee_routes (JArr [sample_item]) = Ok m2 ->
      generate_prometheus_targets m1 "10.0.0.5"
      = generate_prometheus_targets m2 "10.0.0.5")
  /\ exit_code run1 = exit_code run2
  /\ option_map snd (written run1) = option_map snd (written run2).
Proof.
  apply (output_deterministic
           (sample_cluster (Some "10.0.0.5") (JObj [("items", JArr [sample_item])]))
           (other_cluster "10.0.0.5" (JArr [sample_item]))
           (invoke sample_args) (invoke other_args)
           sample_args other_args "10.0.0.5" (JArr [sample_item]));
    reflexivity.
Defined.

Lemma headless_service_aborts_witness :
  get_k8s_service_ip (sample_cluster (Some "None") (JObj []))
                     (namespace sample_args) (service_name sample_args)
  = Ok None
  /\ main (sample_cluster (Some "None") (JObj [])) (invoke sample_args)
     = {| exit_code := 1; written := None |}.
Proof.
  apply (headless_service_aborts (sample_cluster (Some "None") (JObj []))
           (invoke sample_args) sample_args
           {| spec := Some {| cluster_ip := Some "None" |} |}
           {| cluster_ip := Some "None" |});
    [reflexivity | reflexivity | reflexivity | right; right; reflexivity].
Defined.

(** * Further properties *)

(** ** Parsing, errors included *)

Lemma hostnames_loop_eq (r : string) (routes : list string) (hs : list json)
  (c : list (json * string)) :
  foldM (hostname_step (r :: routes)) hs (group_first c)
  = if forallb hashable hs
    then Ok (group_first (c ++ flat_map (fun h => map (pair h) (r :: routes)) hs))
    else Raise TypeError.
Proof.
  revert c. induction hs as [|h hs IH]; intros c.
  - simpl. now rewrite app_nil_r.
  - cbn [foldM forallb]. unfold hostname_step at 1.
    destruct (hashable h) eqn:Hh; [|reflexivity].
    cbn [bind andb]. rewrite hostname_step_group by exact Hh.
    rewrite IH. cbn [flat_map]. now rewrite app_assoc.
Qed.

Lemma item_step_eq (c : list (json * string)) (item : json) :
  item_step (group_first c) item
  = (ps <- item_pairs item ;; Ok (group_first (c ++ ps))).
Proof.
  unfold item_step, item_pairs, bind.
  destruct (item_fields item) as [[hostnames rules]|]; [|reflexivity].
  destruct (negb (truthy hostnames) || negb (truthy rules));
    [now rewrite app_nil_r|].
  destruct (collect_routes rules) as [[|r routes]|]; [| |reflexivity].
  { now rewrite app_nil_r. }
  destruct (py_iter hostnames) as [hs|]; [|reflexivity].
  rewrite hostnames_loop_eq. now destruct (forallb hashable hs).
Qed.

Lemma parse_loop_eq (items : list json) (c : list (json * string)) :
  foldM item_step items (group_first c)
  = (c' <- foldM (fun acc item => ps <- item_pairs item ;; Ok (acc ++ ps)) items c ;;
     Ok (group_first c')).
Proof.
  revert c. induction items as [|item items IH]; intros c; simpl; [reflexivity|].
  rewrite item_step_eq. destruct (item_pairs item) as [ps|e]; simpl; [|reflexivity].
  apply IH.
Qed.

Lemma parse_eq_encounters (items : list json) :
  parse_apigee_routes (JArr items)
  = (pairs <- encounters items ;; Ok (group_first pairs)).
Proof. rewrite parse_list. apply (parse_loop_eq items []). Qed.

Lemma parse_ok_encounters (items : list json) (m : route_map) :
  parse_apigee_routes (JArr items) = Ok m ->
  exists pairs, encounters items = Ok pairs /\ m = group_first pairs.
Proof.
  rewrite parse_eq_encounters. unfold bind.
  destruct (encounters items) as [pairs|]; [|discriminate].
  intros H. inversion H. now exists pairs.
Qed.

(** ** What a resource declares *)

Lemma item_pairs_declares (item : json) (ps : list (json * string))
  (h : json) (p : string) :
  item_pairs item = Ok ps ->
  (In (h, p) ps <-> declares item h p).
Proof.
  unfold item_pairs, declares, bind. intros H.
  destruct (item_fields item) as [[hostnames rules]|]; [|discriminate].
  destruct (truthy hostnames) eqn:Hth; simpl in H.
  2:{ inversion H; subst. split; [intros []|].
      intros (hn & ru & routes & hs & Hf & Hh & _). inversion Hf; subst.
      congruence. }
  destruct (truthy rules) eqn:Htr; simpl in H.
  2:{ inversion H; subst. split; [intros []|].
      intros (hn & ru & routes & hs & Hf & _ & Hr & _). inversion Hf; subst.
      congruence. }
  destruct (collect_routes rules) as [[|r routes]|] eqn:Hc; [| |discriminate].
  { inversion H; subst. split; [intros []|].
    intros (hn & ru & routes & hs & Hf & _ & _ & Hc' & _ & _ & Hin).
    inversion Hf; subst. rewrite Hc in Hc'. inversion Hc'; subst. destruct Hin. }
  destruct (py_iter hostnames) as [hs|] eqn:Hi; [|discriminate].
  destruct (forallb hashable hs); [|discriminate].
  inversion H; subst. rewrite in_flat_map. split.
  - intros (h' & Hh' & Hin).
    change (In (h, p) (map (pair h') (r :: routes))) in Hin.
    apply in_map_iff in Hin.
    destruct Hin as (p' & Heq & Hp'). inversion Heq; subst.
    exists hostnames, rules, (r :: routes), hs. repeat split; assumption.
  - intros (hn & ru & routes' & hs' & Hf & _ & _ & Hc' & Hi' & Hh & Hp).
    inversion Hf; subst. rewrite Hc in Hc'. inversion Hc'; subst.
    rewrite Hi in Hi'. inversion Hi'; subst.
    exists h. split; [assumption|]. exact (in_map (pair h) (r :: routes) p Hp).
Qed.

Lemma item_pairs_hashable (item : json) (ps : list (json * string)) :
  item_pairs item = Ok ps -> Forall (fun e => hashable (fst e) = true) ps.
Proof.
  unfold item_pairs, bind. intros H.
  destruct (item_fields item) as [[hostnames rules]|]; [|discriminate].
  destruct (negb (truthy hostnames) || negb (truthy rules));
    [inversion H; constructor|].
  destruct (collect_routes rules) as [[|r routes]|]; [| |discriminate];
    [inversion H; constructor|].
  destruct (py_iter hostnames) as [hs|]; [|discriminate].
  destruct (forallb hashable hs) eqn:Hall; [|discriminate].
  inversion H; subst. rewrite forallb_forall in Hall.
  rewrite Forall_forall. intros [h p] Hin. apply in_flat_map in Hin.
  destruct Hin as (h' & Hh' & Hin).
  change (In (h, p) (map (pair h') (r :: routes))) in Hin.
  apply in_map_iff in Hin.
  destruct Hin as (p' & Heq & _). inversion Heq; subst. simpl. now apply Hall.
Qed.

(** The pairs of a list are those of its resources. *)
Lemma encounters_loop_in (items : list json) (c c' : list (json * string))
  (e : json * string) :
  foldM (fun acc item => ps <- item_pairs item ;; Ok (acc ++ ps)) items c = Ok c' ->
  (In e c' <->
   In e c \/ exists item ps, In item items /\ item_pairs item = Ok ps /\ In e ps).
Proof.
  revert c. induction items as [|item items IH]; intros c H; simpl in H.
  - inversion H; subst. split; [now left|].
    intros [Hin|(item & ps & [] & _)]. exact Hin.
  - destruct (item_pairs item) as [ps|] eqn:Hps; [|discriminate]. simpl in H.
    rewrite (IH _ H), in_app_iff. split.
    + intros [[Hin|Hin]|(item' & ps' & Hi & Hp & Hin)].
      * now left.
      * right. exists item, ps. repeat split; [now left | assumption | assumption].
      * right. exists item', ps'. repeat split; [now right | assumption | assumption].
    + intros [Hin|(item' & ps' & [<-|Hi] & Hp & Hin)].
      * now left; left.
      * rewrite Hps in Hp. inversion Hp; subst. now left; right.
      * right. exists item', ps'. repeat split; assumption.
Qed.

Lemma encounters_declares (items : list json) (pairs : list (json * string))
  (h : json) (p : string) :
  encounters items = Ok pairs ->
  (In (h, p) pairs <-> exists item, In item items /\ declares item h p).
Proof.
  intros H. unfold encounters in H.
  rewrite (encounters_loop_in items [] pairs (h, p) H). split.
  - intros [[]|(item & ps & Hi & Hp & Hin)].
    exists item. split; [assumption|]. now apply (item_pairs_declares item ps).
  - intros (item & Hi & Hd). right.
    assert (Hps : exists ps, item_pairs item = Ok ps).
    { clear Hd. revert H. generalize (@nil (json * string)).
      induction items as [|x items IH]; [destruct Hi|].
      intros c H. simpl in H.
      destruct (item_pairs x) as [ps|] eqn:Hx; [|discriminate]. simpl in H.
      destruct Hi as [->|Hi]; [now exists ps | now apply (IH Hi _ H)]. }
    destruct Hps as [ps Hps]. exists item, ps. repeat split; try assumption.
    now apply (item_pairs_declares item ps).
Qed.

Lemma encounters_hashable (items : list json) (pairs : list (json * string)) :
  encounters items = Ok pairs ->
  Forall (fun e => hashable (fst e) = true) pairs.
Proof.
  unfold encounters. apply foldM_invariant; [|constructor].
  intros c item c' Hc H. unfold bind in H.
  destruct (item_pairs item) as [ps|] eqn:Hps; [|discriminate].
  inversion H; subst. apply Forall_app. split; [assumption|].
  now apply (item_pairs_hashable item).
Qed.

(** ** Membership in the grouped map *)

Lemma in_first_occurrences_string (p : string) (l : list string) :
  In p (first_occurrences String.eqb l) <-> In p l.
Proof.
  split; [apply first_occurrences_incl|].
  induction l as [|a l IH]; simpl; [tauto|].
  intros [->|Hin]; [now left|].
  destruct (String.eqb_spec a p) as [->|Hne]; [now left|].
  right. apply filter_In. split; [now apply IH|].
  apply negb_true_iff. now apply String.eqb_neq.
Qed.

Lemma in_paths_of (k : json) (p : string) (c : list (json * string)) :
  In p (paths_of k c) <-> exists h, In (h, p) c /\ py_eq h k = true.
Proof.
  unfold paths_of. rewrite in_map_iff. split.
  - intros ([h p'] & Heq & Hin). simpl in Heq. subst p'.
    apply filter_In in Hin. now exists h.
  - intros (h & Hin & Hk). exists (h, p). split; [reflexivity|].
    now apply filter_In.
Qed.

Lemma in_group_first (k : json) (ps : list string) (c : list (json * string)) :
  In (k, ps) (group_first c) ->
  In k (map fst c) /\ ps = first_occurrences String.eqb (paths_of k c).
Proof.
  unfold group_first. intros H. apply in_map_iff in H.
  destruct H as (k' & Heq & Hin). inversion Heq; subst.
  split; [|reflexivity]. now apply first_occurrences_incl in Hin.
Qed.

Lemma group_first_key (h : json) (c : list (json * string)) :
  In h (map fst c) -> hashable h = true ->
  exists k, In (k, first_occurrences String.eqb (paths_of k c)) (group_first c)
            /\ py_eq k h = true.
Proof.
  intros Hin Hh.
  assert (Hex : existsb (fun k => py_eq k h)
                  (first_occurrences py_eq (map fst c)) = true).
  { rewrite (existsb_first_occurrences py_eq py_eq_trans).
    apply existsb_exists. exists h. split; [assumption | now apply py_eq_refl]. }
  apply existsb_exists in Hex. destruct Hex as (k & Hk & Hkh).
  exists k. split; [|assumption].
  unfold group_first. apply in_map_iff. now exists k.
Qed.

(** A path of the map was paired, in the input, with a hostname equal to
    its key; the key itself is a hostname of the input. *)
Lemma parse_path_in_pairs (items : list json) (m : route_map) (k : json)
  (ps : list string) (p : string) :
  parse_apigee_routes (JArr items) = Ok m ->
  In (k, ps) m -> In p ps ->
  exists pairs h,
    encounters items = Ok pairs
    /\ In (h, p) pairs /\ py_eq h k = true /\ In k (map fst pairs).
Proof.
  intros Hparse Hin Hp.
  destruct (parse_ok_encounters items m Hparse) as (pairs & Henc & ->).
  apply in_group_first in Hin. destruct Hin as [Hk ->].
  apply in_first_occurrences_string, in_paths_of in Hp.
  destruct Hp as (h & Hhp & Hhk). now exists pairs, h.
Qed.

Lemma match_step_nonempty (routes routes' : list string) (match_ : json) :
  Forall (fun p => p <> ""%string) routes ->
  match_step routes match_ = Ok routes' ->
  Forall (fun p => p <> ""%string) routes'.
Proof.
  intros Hr H. unfold match_step, bind in H.
  destruct (py_get match_ "uri" (JObj [])) as [uri|]; [|discriminate].
  destruct (accepted_prefix uri) as [prefix|]; [|discriminate].
  destruct (truthy prefix) eqn:Ht; [|now inversion H; subst].
  destruct prefix as [| | |s| |]; try discriminate.
  destruct (negb (startswith s RESERVED_PREFIX)); inversion H; subst;
    [|assumption].
  apply Forall_app. split; [assumption|]. constructor; [|constructor].
  intros ->. discriminate Ht.
Qed.

Lemma collect_routes_nonempty (rules : json) (routes : list string) :
  collect_routes rules = Ok routes -> Forall (fun p => p <> ""%string) routes.
Proof.
  unfold collect_routes, bind.
  destruct (py_iter rules) as [l|]; [|discriminate].
  apply foldM_invariant; [|constructor].
  intros s rule s' Hs H. unfold rule_step, bind in H.
  destruct (py_get rule "matches" (JArr [])) as [ms|]; [|discriminate].
  destruct (py_iter ms) as [l'|]; [|discriminate].
  revert H. apply foldM_invariant; [|assumption].
  intros t x t' Ht Hx. eapply match_step_nonempty; eassumption.
Qed.

(** X1. Every route a resource of the list declares is in the route map:
    when a resource passes the check of line 48, each route it collects is
    listed under a key equal to each of its hostnames. *)
Theorem parse_lists_every_declared_route (items : list json) (m : route_map)
  (item hostname : json) (path : string) :
  parse_apigee_routes (JArr items) = Ok m ->
  In item items ->
  declares item hostname path ->
  exists key paths,
    In (key, paths) m /\ py_eq key hostname = true /\ In path paths.
Proof.
  intros Hparse Hitem Hdecl.
  destruct (parse_ok_encounters items m Hparse) as (pairs & Henc & ->).
  assert (Hin : In (hostname, path) pairs).
  { apply (encounters_declares items pairs hostname path Henc). now exists item. }
  assert (Hh : hashable hostname = true).
  { pose proof (encounters_hashable items pairs Henc) as Hall.
    rewrite Forall_forall in Hall. exact (Hall _ Hin). }
  destruct (group_first_key hostname pairs) as (k & Hk & Hkh);
    [now apply (in_map fst) in Hin | assumption |].
  exists k, (first_occurrences String.eqb (paths_of k pairs)).
  repeat split; try assumption.
  apply in_first_occurrences_string, in_paths_of.
  exists hostname. split; [assumption|]. now rewrite py_eq_sym.
Qed.

(** X2. The route map holds nothing the input does not declare: every
    path of every entry is a route of some resource of the list that also
    declares a hostname equal to the entry's key, and the key itself is a
    hostname some resource declares. *)
Theorem parse_lists_only_declared_routes (items : list json) (m : route_map)
  (key : json) (paths : list string) (path : string) :
  parse_apigee_routes (JArr items) = Ok m ->
  In (key, paths) m -> In path paths ->
  (exists item hostname,
      In item items /\ declares item hostname path
      /\ py_eq hostname key = true)
  /\ (exists item path', In item items /\ declares item key path').
Proof.
  intros Hparse Hin Hp.
  destruct (parse_path_in_pairs items m key paths path Hparse Hin Hp)
    as (pairs & h & Henc & Hhp & Hhk & Hk).
  split.
  - apply (encounters_declares items pairs h path Henc) in Hhp.
    destruct Hhp as (item & Hitem & Hdecl). now exists item, h.
  - apply in_map_iff in Hk. destruct Hk as ([k' p'] & Heq & Hk).
    simpl in Heq. subst k'.
    apply (encounters_declares items pairs key p' Henc) in Hk.
    destruct Hk as (item & Hitem & Hdecl). now exists item, p'.
Qed.

(** X3. No path of the route map is the empty string: line 54 drops an
    accepted value that is false as a condition. *)
Theorem parse_never_emits_empty_path (items : list json) (m : route_map)
  (key : json) (paths : list string) (path : string) :
  parse_apigee_routes (JArr items) = Ok m ->
  In (key, paths) m -> In path paths ->
  path <> ""%string.
Proof.
  intros Hparse Hin Hp.
  destruct (parse_path_in_pairs items m key paths path Hparse Hin Hp)
    as (pairs & h & Henc & Hhp & _ & _).
  apply (encounters_declares items pairs h path Henc) in Hhp.
  destruct Hhp as (item & _ & hn & ru & routes & hs & _ & _ & _ & Hc & _ & _ & Hr).
  apply collect_routes_nonempty in Hc. rewrite Forall_forall in Hc.
  now apply Hc.
Qed.

(** X4. No entry of the route map has an empty path list (line 56 adds
    hostnames only for a resource with at least one route), so a non-empty
    route map gives at least one target. *)
Theorem parse_no_empty_entry (items : list json) (m : route_map)
  (service_ip : string) :
  parse_apigee_routes (JArr items) = Ok m ->
  (forall key paths, In (key, paths) m -> paths <> [])
  /\ (m <> [] -> generate_prometheus_targets m service_ip <> []).
Proof.
  intros Hparse.
  assert (Hne : forall key paths, In (key, paths) m -> paths <> []).
  { destruct (parse_ok_encounters items m Hparse) as (pairs & Henc & ->).
    intros key paths Hin. apply in_group_first in Hin. destruct Hin as [Hk ->].
    apply in_map_iff in Hk. destruct Hk as ([k p] & Heq & Hk).
    simpl in Heq. subst k.
    assert (Hp : In p (first_occurrences String.eqb (paths_of key pairs))).
    { apply in_first_occurrences_string, in_paths_of. exists key.
      split; [assumption|]. apply py_eq_refl.
      pose proof (encounters_hashable items pairs Henc) as Hall.
      rewrite Forall_forall in Hall. exact (Hall _ Hk). }
    intros Hnil. rewrite Hnil in Hp. destruct Hp. }
  split; [exact Hne|].
  intros Hm. rewrite generate_as_map.
  destruct m as [|[k ps] t]; [now elim Hm|].
  specialize (Hne k ps (or_introl eq_refl)).
  destruct ps as [|p ps]; [now elim Hne|]. discriminate.
Qed.

(** ** No target twice *)

Lemma distinct_keys_NoDup (K : list json) :
  distinct py_eq K -> Forall (fun k => hashable k = true) K -> NoDup K.
Proof.
  induction 1 as [|k K Hk HK IH]; intros Hh; constructor.
  - intros Hin. rewrite Forall_forall in Hk. specialize (Hk k Hin).
    inversion Hh; subst. now rewrite py_eq_refl in Hk.
  - apply IH. now inversion Hh.
Qed.

Lemma in_route_pairs (m : route_map) (k : json) (p : string) :
  In (k, p) (route_pairs m) <-> exists ps, In (k, ps) m /\ In p ps.
Proof.
  unfold route_pairs. rewrite in_flat_map. split.
  - intros ([k' ps] & Hin & Hp). simpl in Hp. apply in_map_iff in Hp.
    destruct Hp as (p' & Heq & Hp). inversion Heq; subst. now exists ps.
  - intros (ps & Hin & Hp). exists (k, ps). split; [assumption|].
    simpl. now apply in_map.
Qed.

Lemma NoDup_route_pairs (m : route_map) :
  NoDup (map fst m) ->
  (forall k ps, In (k, ps) m -> NoDup ps) ->
  NoDup (route_pairs m).
Proof.
  induction m as [|[k ps] m IH]; intros Hk Hps; [constructor|].
  change (route_pairs ((k, ps) :: m)) with (map (pair k) ps ++ route_pairs m).
  inversion Hk as [|? ? Hnotin Hk']; subst.
  apply NoDup_app.
  - apply NoDup_map_NoDup_ForallPairs; [|apply (Hps k ps); now left].
    intros x y _ _ Heq. now inversion Heq.
  - apply IH; [assumption|]. intros k' ps' Hin. apply (Hps k' ps'). now right.
  - intros [k' p] Hin Hin'. apply in_map_iff in Hin.
    destruct Hin as (p' & Heq & _). inversion Heq; subst.
    apply in_route_pairs in Hin'. destruct Hin' as (ps' & Hin' & _).
    apply Hnotin. now apply (in_map fst) in Hin'.
Qed.

(** X5. The targets generated from a parsed route map are pairwise
    different: no (hostname, path) pair is probed twice. *)
Theorem generated_targets_distinct (items : list json) (m : route_map)
  (service_ip : string) :
  parse_apigee_routes (JArr items) = Ok m ->
  NoDup (generate_prometheus_targets m service_ip).
Proof.
  intros Hparse. rewrite generate_as_map.
  apply NoDup_map_NoDup_ForallPairs.
  { intros [h p] [h' p'] _ _ Heq. unfold target in Heq. simpl in Heq.
    now inversion Heq. }
  destruct (parse_ok_encounters items m Hparse) as (pairs & Henc & ->).
  apply NoDup_route_pairs.
  - unfold group_first. rewrite map_map. simpl. rewrite map_id.
    apply distinct_keys_NoDup; [apply distinct_first_occurrences|].
    rewrite Forall_forall. intros k Hk. apply first_occurrences_incl in Hk.
    apply in_map_iff in Hk. destruct Hk as ([k' p] & Heq & Hk).
    simpl in Heq. subst k'.
    pose proof (encounters_hashable items pairs Henc) as Hall.
    rewrite Forall_forall in Hall. exact (Hall _ Hk).
  - intros k ps Hin. apply in_group_first in Hin. destruct Hin as [_ ->].
    apply NoDup_first_occurrences.
Qed.

(** ** Later resources only append *)

Lemma extends_refl (m : route_map) : extends m m.
Proof.
  induction m as [|[k ps] m IH]; [constructor|].
  rewrite <- (app_nil_r ps) at 2. now constructor.
Qed.

Lemma extends_trans (m1 m2 m3 : route_map) :
  extends m1 m2 -> extends m2 m3 -> extends m1 m3.
Proof.
  intros H12. revert m3. induction H12 as [|k ps more t t' H IH]; intros m3 H23.
  - constructor.
  - inversion H23; subst. rewrite <- app_assoc. constructor. now apply IH.
Qed.

Lemma extends_app (m extra : route_map) : extends m (m ++ extra).
Proof.
  induction m as [|[k ps] m IH]; [constructor|].
  simpl. rewrite <- (app_nil_r ps) at 2. now constructor.
Qed.

Lemma setdefault_extends (m : route_map) (h : json) :
  extends m (setdefault m h).
Proof.
  unfold setdefault. destruct (has_key h m);
    [apply extends_refl | apply extends_app].
Qed.

Lemma add_route_extends (h : json) (m : route_map) (r : string) :
  extends m (add_route h m r).
Proof.
  induction m as [|[k ps] m IH]; simpl; [constructor|].
  destruct (py_eq k h).
  - destruct (route_in r ps).
    + apply extends_refl.
    + constructor. apply extends_refl.
  - rewrite <- (app_nil_r ps) at 2. now constructor.
Qed.

Lemma fold_add_route_extends (h : json) (routes : list string) (m : route_map) :
  extends m (fold_left (add_route h) routes m).
Proof.
  revert m. induction routes as [|r routes IH]; intros m; simpl.
  - apply extends_refl.
  - eapply extends_trans; [apply (add_route_extends h m r) | apply IH].
Qed.

Lemma item_step_extends (m m' : route_map) (item : json) :
  item_step m item = Ok m' -> extends m m'.
Proof.
  unfold item_step, bind. intros H.
  destruct (item_fields item) as [[hostnames rules]|]; [|discriminate].
  destruct (negb (truthy hostnames) || negb (truthy rules));
    [inversion H; apply extends_refl|].
  destruct (collect_routes rules) as [[|r routes]|]; [| |discriminate];
    [inversion H; apply extends_refl|].
  destruct (py_iter hostnames) as [hs|]; [|discriminate].
  revert m H. induction hs as [|h hs IH]; intros s H.
  - inversion H. apply extends_refl.
  - cbn [foldM] in H. unfold hostname_step at 1 in H.
    destruct (hashable h); [|discriminate]. cbn [bind] in H.
    apply IH in H. eapply extends_trans; [|exact H].
    eapply extends_trans; [apply setdefault_extends|].
    apply fold_add_route_extends.
Qed.

Lemma parse_loop_extends (items : list json) (m m' : route_map) :
  foldM item_step items m = Ok m' -> extends m m'.
Proof.
  revert m. induction items as [|item items IH]; intros m H; simpl in H.
  - inversion H. apply extends_refl.
  - destruct (item_step m item) as [m1|] eqn:Hstep; [|discriminate].
    simpl in H. eapply extends_trans; [|apply IH; exact H].
    now apply item_step_extends in Hstep.
Qed.

Lemma extends_nth (m m' : route_map) :
  extends m m' ->
  forall i k ps,
    nth_error m i = Some (k, ps) ->
    exists more, nth_error m' i = Some (k, ps ++ more).
Proof.
  induction 1 as [|k0 ps0 more t t' H IH]; intros i k ps Hi.
  - now destruct i.
  - destruct i as [|i]; simpl in *.
    + inversion Hi; subst. now exists more.
    + now apply IH.
Qed.

(** X6. Resources that follow never disturb what earlier ones produced:
    when a list followed by further resources parses, the list alone
    parses, and every entry of its route map is found at the same position
    in the route map of the longer list, with the same key and with its
    paths as a prefix of the new paths. *)
Theorem parse_only_appends (items more_items : list json) (m' : route_map) :
  parse_apigee_routes (JArr (items ++ more_items)) = Ok m' ->
  exists m,
    parse_apigee_routes (JArr items) = Ok m
    /\ extends m m'
    /\ forall i key paths,
         nth_error m i = Some (key, paths) ->
         exists more, nth_error m' i = Some (key, paths ++ more).
Proof.
  rewrite !parse_list, foldM_app. intros H.
  destruct (foldM item_step items []) as [m|]; [|discriminate].
  simpl in H. apply parse_loop_extends in H.
  exists m. split; [reflexivity|]. split; [assumption|].
  now apply extends_nth.
Qed.

(** ** Resources listed again *)

Lemma group_first_snoc_redundant (h : json) (r : string)
  (c : list (json * string)) :
  In (h, r) c -> hashable h = true ->
  group_first (c ++ [(h, r)]) = group_first c.
Proof.
  intros Hin Hh. rewrite <- (add_route_setdefault_group h r c Hh).
  assert (Hkey : has_key h (group_first c) = true).
  { rewrite has_key_group_first. apply existsb_exists. exists h.
    split; [now apply (in_map fst) in Hin | now apply py_eq_refl]. }
  unfold setdefault. rewrite Hkey. unfold group_first.
  rewrite (add_route_map h r (fun k => first_occurrences String.eqb (paths_of k c)))
    by apply distinct_first_occurrences.
  apply map_ext. intros k. destruct (py_eq k h) eqn:Hkh; [|reflexivity].
  rewrite route_in_first_occurrences.
  assert (Hex : existsb (fun y => (y =? r)%string) (paths_of k c) = true).
  { apply existsb_exists. exists r. split; [|apply String.eqb_refl].
    apply in_paths_of. exists h. split; [assumption|]. now rewrite py_eq_sym. }
  now rewrite Hex.
Qed.

Lemma group_first_redundant (extra c : list (json * string)) :
  incl extra c ->
  Forall (fun e => hashable (fst e) = true) extra ->
  group_first (c ++ extra) = group_first c.
Proof.
  revert c. induction extra as [|[h r] extra IH]; intros c Hincl Hh.
  - now rewrite app_nil_r.
  - inversion Hh; subst.
    change (c ++ (h, r) :: extra) with (c ++ [(h, r)] ++ extra).
    rewrite app_assoc, IH; [| |assumption].
    + apply group_first_snoc_redundant; [|assumption]. apply Hincl. now left.
    + intros e He. apply in_or_app. left. apply Hincl. now right.
Qed.

Lemma encounters_loop_item (items : list json) (c c' : list (json * string))
  (item : json) :
  foldM (fun acc x => ps <- item_pairs x ;; Ok (acc ++ ps)) items c = Ok c' ->
  In item items ->
  exists ps, item_pairs item = Ok ps /\ incl ps c'.
Proof.
  intros H Hin.
  assert (Hps : exists ps, item_pairs item = Ok ps).
  { revert c H. induction items as [|x items IH]; [destruct Hin|].
    intros c H. simpl in H.
    destruct (item_pairs x) as [ps|] eqn:Hx; [|discriminate]. simpl in H.
    destruct Hin as [->|Hin]; [now exists ps | now apply (IH Hin _ H)]. }
  destruct Hps as [ps Hps]. exists ps. split; [assumption|].
  intros e He. apply (encounters_loop_in items c c' e H).
  right. now exists item, ps.
Qed.

Lemma encounters_loop_redundant (more : list json) (c : list (json * string)) :
  (forall item, In item more -> exists ps, item_pairs item = Ok ps /\ incl ps c) ->
  exists c',
    foldM (fun acc x => ps <- item_pairs x ;; Ok (acc ++ ps)) more c = Ok c'
    /\ group_first c' = group_first c.
Proof.
  revert c. induction more as [|item more IH]; intros c Hall; simpl.
  - now exists c.
  - destruct (Hall item (or_introl eq_refl)) as (ps & Hps & Hincl).
    rewrite Hps. simpl.
    destruct (IH (c ++ ps)) as (c' & Hc' & Hg).
    + intros x Hx. destruct (Hall x (or_intror Hx)) as (ps' & Hps' & Hincl').
      exists ps'. split; [assumption|].
      intros e He. apply in_or_app. left. now apply Hincl'.
    + exists c'. split; [assumption|]. rewrite Hg.
      apply group_first_redundant; [assumption|].
      now apply (item_pairs_hashable item).
Qed.

(** X7. Listing again, at the end, resources the list already holds does
    not change the result of parsing: the same route map, or the same
    exception. *)
Theorem parse_repeated_resources (items again : list json) :
  incl again items ->
  parse_apigee_routes (JArr (items ++ again)) = parse_apigee_routes (JArr items).
Proof.
  intros Hincl. rewrite !parse_eq_encounters. unfold encounters.
  rewrite foldM_app.
  destruct (foldM _ items []) as [c|e] eqn:Henc; simpl; [|reflexivity].
  destruct (encounters_loop_redundant again c) as (c' & Hc' & Hg).
  - intros item Hin. apply (encounters_loop_item items [] c item Henc).
    now apply Hincl.
  - rewrite Hc'. simpl. now rewrite Hg.
Qed.

(** ** The generator on a map in two parts *)

(** X8. The targets of a route map that is the concatenation of two maps
    are the targets of the first followed by those of the second; the
    empty map gives no target. *)
Theorem generate_app (m1 m2 : route_map) (service_ip : string) :
  generate_prometheus_targets (m1 ++ m2) service_ip
  = generate_prometheus_targets m1 service_ip
    ++ generate_prometheus_targets m2 service_ip
  /\ generate_prometheus_targets [] service_ip = [].
Proof.
  split; [|reflexivity].
  rewrite !generate_as_map. unfold route_pairs.
  now rewrite flat_map_app, map_app.
Qed.

(** ** A resource that raises *)

(** X9. One resource on which the loop body raises makes the whole parse
    raise that exception, whatever comes after it in the list; the run,
    once its command line is parsed, then ends with exit status 1 and
    writes no file. *)
Theorem malformed_resource_aborts (c : cluster) (inv : invocation) (a : args)
  (service_ip : string) (before after : list json) (item : json)
  (m : route_map) (e : exn) :
  parse_args inv = Parsed a ->
  get_k8s_service_ip c (namespace a) (service_name a) = Ok (Some service_ip) ->
  get_apigee_routes_from_cluster c (namespace a)
  = Ok (JArr (before ++ item :: after)) ->
  parse_apigee_routes (JArr before) = Ok m ->
  item_step m item = Raise e ->
  parse_apigee_routes (JArr (before ++ item :: after)) = Raise e
  /\ main c inv = {| exit_code := 1; written := None |}.
Proof.
  intros Hargs Hip Hitems Hbefore Hstep.
  assert (Hparse : parse_apigee_routes (JArr (before ++ item :: after)) = Raise e).
  { rewrite parse_list in *. rewrite foldM_app, Hbefore. simpl.
    now rewrite Hstep. }
  split; [exact Hparse|].
  rewrite (main_after_fetch c inv a service_ip _ Hargs Hip Hitems), Hparse.
  reflexivity.
Qed.

(** ** The resolver *)

(** X10. The resolver returns an address exactly when the Service was
    read, has a spec, and its ClusterIP is a string other than the empty
    string and "None"; the address returned is that ClusterIP. *)
Theorem resolver_returns_cluster_ip (c : cluster) (ns name ip : string) :
  get_k8s_service_ip c ns name = Ok (Some ip)
  <-> exists service service_spec,
        read_namespaced_service c name ns = Reply service
        /\ spec service = Some service_spec
        /\ cluster_ip service_spec = Some ip
        /\ ip <> ""%string /\ ip <> "None"%string.
Proof.
  unfold get_k8s_service_ip. split.
  - destruct (read_namespaced_service c name ns) as [service|]; [|discriminate].
    destruct (spec service) as [service_spec|] eqn:Hspec; [|discriminate].
    destruct (cluster_ip service_spec) as [ip'|] eqn:Hip; [|discriminate].
    simpl. destruct (String.eqb_spec ip' ""); simpl; [discriminate|].
    destruct (String.eqb_spec ip' "None"); [discriminate|].
    intros H. inversion H; subst. now exists service, service_spec.
  - intros (service & service_spec & -> & -> & -> & Hne & Hnn). simpl.
    destruct (String.eqb_spec ip ""); [now elim Hne|]. simpl.
    destruct (String.eqb_spec ip "None"); [now elim Hnn|]. reflexivity.
Qed.

(** X11. When reading the Service fails with an API error, of status 404
    or any other, the resolver returns the failure signal instead of
    raising, and the run, once its command line is parsed, ends with exit
    status 1 and writes no file. *)
Theorem resolver_api_error_aborts (c : cluster) (inv : invocation) (a : args)
  (status : Z) :
  parse_args inv = Parsed a ->
  read_namespaced_service c (service_name a) (namespace a) = ApiException status ->
  get_k8s_service_ip c (namespace a) (service_name a) = Ok None
  /\ main c inv = {| exit_code := 1; written := None |}.
Proof.
  intros Hargs Hreply.
  assert (Hres : get_k8s_service_ip c (namespace a) (service_name a) = Ok None).
  { unfold get_k8s_service_ip. now rewrite Hreply. }
  split; [exact Hres|].
  unfold main. rewrite Hargs, Hres. now destruct (incluster_config c).
Qed.

(** ** Fetching the resources *)

(** X12. When listing the ApigeeRoute resources fails with an API error,
    the fetch returns [None] and the run, once its command line is parsed,
    ends with exit status 1 and writes no file, whatever the Service lookup
    gave. *)
Theorem fetch_api_error_aborts (c : cluster) (inv : invocation) (a : args)
  (status : Z) :
  parse_args inv = Parsed a ->
  list_namespaced_custom_object c "apigee.cloud.google.com" "v1alpha2"
    (namespace a) "apigeeroutes"
  = ApiException status ->
  get_apigee_routes_from_cluster c (namespace a) = Ok JNull
  /\ main c inv = {| exit_code := 1; written := None |}.
Proof.
  intros Hargs Hreply.
  assert (Hfetch : get_apigee_routes_from_cluster c (namespace a) = Ok JNull).
  { unfold get_apigee_routes_from_cluster, GROUP, VERSION, PLURAL.
    rewrite Hreply. now destruct (incluster_config c). }
  split; [exact Hfetch|].
  unfold main. rewrite Hargs, Hfetch.
  destruct (incluster_config c); [|reflexivity]. cbn [negb].
  destruct (get_k8s_service_ip c (namespace a) (service_name a))
    as [[ip|]|]; try reflexivity.
  now destruct (negb (truthy (JStr ip))).
Qed.

(** X13. A list reply without an "items" key counts as an empty list: with
    the command line parsed, the configuration loaded, the address
    resolved and the output file open for writing, the run writes "[]" and
    ends with exit status 0. *)
Theorem reply_without_items_writes_empty_array (c : cluster) (inv : invocation)
  (a : args) (service_ip : string) (api_response : list (string * json)) :
  parse_args inv = Parsed a ->
  writable inv (outfile a) = true ->
  incluster_config c = true ->
  get_k8s_service_ip c (namespace a) (service_name a) = Ok (Some service_ip) ->
  list_namespaced_custom_object c "apigee.cloud.google.com" "v1alpha2"
    (namespace a) "apigeeroutes"
  = Reply (JObj api_response) ->
  dict_lookup "items" api_response = None ->
  get_apigee_routes_from_cluster c (namespace a) = Ok (JArr [])
  /\ main c inv = {| exit_code := 0; written := Some (outfile a, "[]") |}.
Proof.
  intros Hargs Hw Hcfg Hip Hreply Hitems.
  assert (Hfetch : get_apigee_routes_from_cluster c (namespace a) = Ok (JArr [])).
  { unfold get_apigee_routes_from_cluster, GROUP, VERSION, PLURAL.
    rewrite Hcfg, Hreply. simpl. now rewrite Hitems. }
  split; [exact Hfetch|].
  rewrite (main_after_fetch c inv a service_ip _ Hargs Hip Hfetch).
  simpl. unfold dump_to. now rewrite Hw.
Qed.

(** ** The outcome of a run *)

(** X14. A run ends with exit status 0, 1 or 2, and writes a file only
    with status 0.  Status 2 and status 0 without a file come from the
    argument parser alone (a usage error, a request for help); with the
    command line parsed, the run either ends with status 1 and no file, or
    ends with status 0 having written the file named by the output
    argument, which could be opened. *)
Theorem main_outcome_shape (c : cluster) (inv : invocation) :
  match parse_args inv with
  | UsageError => main c inv = {| exit_code := 2; written := None |}
  | Help => main c inv = {| exit_code := 0; written := None |}
  | Parsed a =>
      main c inv = {| exit_code := 1; written := None |}
      \/ (writable inv (outfile a) = true
          /\ exit_code (main c inv) = 0%Z
          /\ exists text, written (main c inv) = Some (outfile a, text))
  end.
Proof.
  unfold main, dump_to, uncaught, sys_exit.
  destruct (parse_args inv) as [a| |]; try reflexivity.
  destruct (incluster_config c); cbn [negb]; [|now left].
  destruct (get_k8s_service_ip c (namespace a) (service_name a))
    as [[ip|]|]; try (now left).
  destruct (negb (truthy (JStr ip))); [now left|].
  destruct (get_apigee_routes_from_cluster c (namespace a)) as [items|];
    [|now left].
  destruct items; try (now left);
    destruct (parse_apigee_routes _) as [[|entry m]|]; try (now left);
    destruct (writable inv (outfile a)); try (now left);
    right; repeat split; eexists; reflexivity.
Qed.

(** X15. A run whose command line is parsed ends with exit status 0
    exactly when the in-cluster configuration loads, the resolver returns
    an address, the fetch returns a value other than [None], parsing that
    value raises nothing, and the output file can be opened for writing. *)
Theorem main_succeeds_iff (c : cluster) (inv : invocation) (a : args) :
  parse_args inv = Parsed a ->
  (exit_code (main c inv) = 0%Z
   <-> incluster_config c = true
       /\ writable inv (outfile a) = true
       /\ exists service_ip items m,
            get_k8s_service_ip c (namespace a) (service_name a)
            = Ok (Some service_ip)
            /\ get_apigee_routes_from_cluster c (namespace a) = Ok items
            /\ items <> JNull
            /\ parse_apigee_routes items = Ok m).
Proof.
  intros Hargs. split.
  - unfold main, dump_to, uncaught, sys_exit. rewrite Hargs.
    destruct (incluster_config c); cbn [negb]; [|discriminate].
    destruct (get_k8s_service_ip c (namespace a) (service_name a))
      as [[ip|]|]; try discriminate.
    destruct (negb (truthy (JStr ip))); [discriminate|].
    destruct (get_apigee_routes_from_cluster c (namespace a)) as [items|];
      [|discriminate].
    intros H. split; [reflexivity|].
    destruct (parse_apigee_routes items) as [m|] eqn:Hparse.
    + destruct (writable inv (outfile a)).
      * split; [reflexivity|].
        exists ip, items, m. repeat split; try reflexivity; try assumption.
        intros ->. simpl in H. discriminate H.
      * destruct items; try destruct m; simpl in H; discriminate H.
    + destruct items; simpl in H; discriminate H.
  - intros (Hcfg & Hw & ip & items & m & Hip & Hitems & Hnn & Hparse).
    rewrite (main_after_fetch c inv a ip items Hargs Hip Hitems), Hparse.
    unfold dump_to. rewrite Hw.
    destruct items; try (now elim Hnn); now destruct m.
Qed.

(** ** Resources of the expected shape *)

Lemma conforms_item_fields (item hostnames rules : json) :
  conforms_item item = true ->
  item_fields item = Ok (hostnames, rules) ->
  conforms_hostnames hostnames = true /\ conforms_http rules = true.
Proof.
  destruct item as [| | | | |kv]; try discriminate. simpl.
  unfold item_fields, bind, py_get. fold (get_field kv "spec" (JObj [])).
  destruct (get_field kv "spec" (JObj [])) as [| | | | |sp]; try discriminate.
  fold (get_field sp "hostnames" JNull). fold (get_field sp "rules" (JObj [])).
  destruct (get_field sp "rules" (JObj [])) as [| | | | |ru];
    try (now rewrite andb_false_r).
  fold (get_field ru "http" (JArr [])).
  intros H Hf. inversion Hf; subst. now apply andb_true_iff in H.
Qed.

(** X16. On a list of resources of the expected shape (every field
    optional, "hostnames" a list of strings, "rules.http" a list of rules
    with lists of matches whose URI matchers hold strings), parsing raises
    nothing and every key of the route map is a string. *)
Theorem parse_conforming (items : list json) :
  forallb conforms_item items = true ->
  exists m,
    parse_apigee_routes (JArr items) = Ok m
    /\ forall key paths, In (key, paths) m -> is_string key = true.
Proof.
  intros Hconf. destruct (parse_total items Hconf) as [m Hparse].
  exists m. split; [assumption|].
  destruct (parse_ok_encounters items m Hparse) as (pairs & Henc & ->).
  intros key paths Hin. apply in_group_first in Hin. destruct Hin as [Hk _].
  apply in_map_iff in Hk. destruct Hk as ([k p] & Heq & Hk). simpl in Heq. subst k.
  apply (encounters_declares items pairs key p Henc) in Hk.
  destruct Hk as (item & Hitem & hn & ru & routes & hs & Hf & Hth & _ & _ & Hi & Hh & _).
  rewrite forallb_forall in Hconf.
  destruct (conforms_item_fields item hn ru (Hconf item Hitem) Hf) as [Hhn _].
  destruct hn as [| | | |l|]; try discriminate.
  simpl in Hi. inversion Hi; subst. simpl in Hhn.
  rewrite forallb_forall in Hhn. now apply Hhn.
Qed.

(** ** The further properties at concrete inputs *)

Lemma parse_lists_every_declared_route_witness :
  exists key paths,
    In (key, paths) [(JStr "a.example.com", ["/v1/orders"])]
    /\ py_eq key (JStr "a.example.com") = true /\ In "/v1/orders" paths.
Proof.
  apply (parse_lists_every_declared_route [sample_item]
           [(JStr "a.example.com", ["/v1/orders"])] sample_item
           (JStr "a.example.com") "/v1/orders");
    [reflexivity | left; reflexivity |].
  do 4 eexists.
  split; [reflexivity|]. split; [reflexivity|]. split; [reflexivity|].
  split; [reflexivity|]. split; [reflexivity|]. split; left; reflexivity.
Defined.

Lemma parse_lists_only_declared_routes_witness :
  (exists item hostname,
      In item [sample_item] /\ declares item hostname "/v1/orders"
      /\ py_eq hostname (JStr "a.example.com") = true)
  /\ (exists item path',
         In item [sample_item] /\ declares item (JStr "a.example.com") path').
Proof.
  apply (parse_lists_only_declared_routes [sample_item]
           [(JStr "a.example.com", ["/v1/orders"])]
           (JStr "a.example.com") ["/v1/orders"] "/v1/orders");
    [reflexivity | left; reflexivity | left; reflexivity].
Defined.

Lemma parse_never_emits_empty_path_witness : "/v1/orders" <> ""%string.
Proof.
  apply (parse_never_emits_empty_path [sample_item]
           [(JStr "a.example.com", ["/v1/orders"])]
           (JStr "a.example.com") ["/v1/orders"] "/v1/orders");
    [reflexivity | left; reflexivity | left; reflexivity].
Defined.

Lemma parse_no_empty_entry_witness :
  (forall key paths,
      In (key, paths) [(JStr "a.example.com", ["/v1/orders"])] -> paths <> [])
  /\ ([(JStr "a.example.com", ["/v1/orders"])] <> [] ->
      generate_prometheus_targets [(JStr "a.example.com", ["/v1/orders"])]
        "10.0.0.5" <> []).
Proof.
  apply (parse_no_empty_entry [sample_item]
           [(JStr "a.example.com", ["/v1/orders"])] "10.0.0.5").
  reflexivity.
Defined.

Lemma generated_targets_distinct_witness :
  NoDup (generate_prometheus_targets
           [(JStr "a", ["/x"; "/y"]); (JStr "b", ["/x"])] "10.0.0.5").
Proof.
  apply (generated_targets_distinct
           [ resource (JArr [JStr "a"; JStr "b"]) [("prefix", JStr "/x")];
             resource (JArr [JStr "a"]) [("prefix", JStr "/y"); ("prefix", JStr "/x")] ]).
  reflexivity.
Defined.

Lemma parse_only_appends_witness :
  exists m,
    parse_apigee_routes (JArr [sample_item]) = Ok m
    /\ extends m [ (JStr "a.example.com", ["/v1/orders"; "/v2"]);
                   (JStr "b.example.com", ["/v2"]) ]
    /\ forall i key paths,
         nth_error m i = Some (key, paths) ->
         exists more,
           nth_error [ (JStr "a.example.com", ["/v1/orders"; "/v2"]);
                       (JStr "b.example.com", ["/v2"]) ] i
           = Some (key, paths ++ more).
Proof.
  apply (parse_only_appends [sample_item]
           [resource (JArr [JStr "a.example.com"; JStr "b.example.com"])
              [("prefix", JStr "/v2")]]).
  reflexivity.
Defined.

Lemma parse_repeated_resources_witness :
  parse_apigee_routes
    (JArr ([sample_item; sample_item_no_rules] ++ [sample_item]))
  = parse_apigee_routes (JArr [sample_item; sample_item_no_rules]).
Proof.
  apply (parse_repeated_resources [sample_item; sample_item_no_rules]
           [sample_item]).
  intros x [<-|[]]. left. reflexivity.
Defined.

Lemma malformed_resource_aborts_witness :
  let items := [sample_item] ++ JObj [("spec", JNull)] :: [sample_item] in
  parse_apigee_routes (JArr items) = Raise AttributeError
  /\ main (sample_cluster (Some "10.0.0.5") (JObj [("items", JArr items)]))
          (invoke sample_args)
     = {| exit_code := 1; written := None |}.
Proof.
  apply (malformed_resource_aborts
           (sample_cluster (Some "10.0.0.5")
              (JObj [("items",
                      JArr ([sample_item] ++ JObj [("spec", JNull)] :: [sample_item]))]))
           (invoke sample_args) sample_args "10.0.0.5"
           [sample_item] [sample_item]
           (JObj [("spec", JNull)])
           [(JStr "a.example.com", ["/v1/orders"])] AttributeError);
    reflexivity.
Defined.

Lemma resolver_api_error_aborts_witness :
  get_k8s_service_ip (other_cluster "10.0.0.5" (JArr []))
                     (namespace sample_args) (service_name sample_args)
  = Ok None
  /\ main (other_cluster "10.0.0.5" (JArr [])) (invoke sample_args)
     = {| exit_code := 1; written := None |}.
Proof.
  apply (resolver_api_error_aborts (other_cluster "10.0.0.5" (JArr []))
           (invoke sample_args) sample_args 404);
    reflexivity.
Defined.

Lemma fetch_api_error_aborts_witness :
  get_apigee_routes_from_cluster (forbidden_cluster "10.0.0.5")
                                 (namespace sample_args)
  = Ok JNull
  /\ main (forbidden_cluster "10.0.0.5") (invoke sample_args)
     = {| exit_code := 1; written := None |}.
Proof.
  apply (fetch_api_error_aborts (forbidden_cluster "10.0.0.5")
           (invoke sample_args) sample_args 403);
    reflexivity.
Defined.

Lemma reply_without_items_writes_empty_array_witness :
  let c := sample_cluster (Some "10.0.0.5")
             (JObj [("kind", JStr "ApigeeRouteList")]) in
  get_apigee_routes_from_cluster c (namespace sample_args) = Ok (JArr [])
  /\ main c (invoke sample_args)
     = {| exit_code := 0; written := Some ("apigee_targets.json", "[]") |}.
Proof.
  apply (reply_without_items_writes_empty_array
           (sample_cluster (Some "10.0.0.5")
              (JObj [("kind", JStr "ApigeeRouteList")]))
           (invoke sample_args) sample_args "10.0.0.5"
           [("kind", JStr "ApigeeRouteList")]);
    reflexivity.
Defined.

Lemma parse_conforming_witness :
  exists m,
    parse_apigee_routes (JArr [sample_item; sample_item_no_rules]) = Ok m
    /\ forall key paths, In (key, paths) m -> is_string key = true.
Proof.
  apply (parse_conforming [sample_item; sample_item_no_rules]).
  reflexivity.
Defined.

Lemma main_succeeds_iff_witness :
  let c := sample_cluster (Some "10.0.0.5") (JObj [("items", JArr [sample_item])]) in
  (exit_code (main c (invoke_read_only sample_args)) = 0%Z
   <-> incluster_config c = true
       /\ writable (invoke_read_only sample_args) (outfile sample_args) = true
       /\ exists service_ip items m,
            get_k8s_service_ip c (namespace sample_args) (service_name sample_args)
            = Ok (Some service_ip)
            /\ get_apigee_routes_from_cluster c (namespace sample_args) = Ok items
            /\ items <> JNull
            /\ parse_apigee_routes items = Ok m).
Proof.
  apply (main_succeeds_iff
           (sample_cluster (Some "10.0.0.5") (JObj [("items", JArr [sample_item])]))
           (invoke_read_only sample_args) sample_args).
  reflexivity.
Defined.
